(** * RouteMap: the geospatial overlay pipeline of the bus-route dashboard

    A shallow embedding of [dashboard/components/map/RouteMap.tsx]:
    the coordinate checks, the bounds accumulation of [MapUpdater], the
    route selection ([displayRoutes]), the polyline and stop-marker
    construction and [getColorBySpeed].

    JavaScript numbers are IEEE 754 binary64 values, modelled by
    [spec_float] at precision 53 and maximal exponent 1024.  Strings are
    sequences of code units below 256. *)

From Stdlib Require Import ZArith QArith Lia Lqa SpecFloat Ascii String.
From stdpp Require Import base list strings.

(** ** The JavaScript runtime operations the component relies on *)

Module JS.

Definition number := spec_float.

Definition prec : Z := 53.
Definition emax : Z := 1024.

Definition NaN : number := S754_nan.
Definition Infinity : number := S754_infinity false.
Definition zero : number := S754_zero false.

(** [isNaN(x)] on a number. *)
Definition isNaN (x : number) : bool :=
  match x with S754_nan => true | _ => false end.

(** [ToBoolean] on a number: [+0], [-0] and [NaN] are falsy. *)
Definition truthy (x : number) : bool :=
  match x with
  | S754_zero _ | S754_nan => false
  | _ => true
  end.

(** [x === y] and [x !== y] on numbers. *)
Definition strictEq (x y : number) : bool := SFeqb x y.
Definition strictNe (x y : number) : bool := negb (SFeqb x y).

(** [x >= y], [x <= y] and [x < y] on numbers; false when either side
    is [NaN]. *)
Definition ge (x y : number) : bool := SFleb y x.
Definition le (x y : number) : bool := SFleb x y.
Definition lt (x y : number) : bool := SFltb x y.

(** [Math.min] and [Math.max] of two numbers: [NaN] is contagious and
    [-0] is below [+0]. *)
Definition Math_min (a b : number) : number :=
  if isNaN a || isNaN b then NaN
  else match a, b with
       | S754_zero sa, S754_zero sb => S754_zero (sa || sb)
       | _, _ => if SFltb b a then b else a
       end.

Definition Math_max (a b : number) : number :=
  if isNaN a || isNaN b then NaN
  else match a, b with
       | S754_zero sa, S754_zero sb => S754_zero (sa && sb)
       | _, _ => if SFltb a b then b else a
       end.

(** *** Decimal text to number

    The mathematical value [m * 10 ^ k] rounded to the nearest binary64
    value, ties to even. *)
Definition ofDecimal (neg : bool) (m k : Z) : number :=
  match m with
  | Zpos p =>
      if (0 <=? k)%Z
      then binary_round prec emax neg (p * Z.to_pos (10 ^ k)) 0
      else
        let '(q, e, l) :=
          SFdiv_core_binary prec emax (Zpos p) 0 (10 ^ (- k)) 0 in
        binary_round_aux prec emax neg q e l
  | _ => S754_zero neg
  end.

Definition codeUnit (c : ascii) : N := N_of_ascii c.

(** [StrWhiteSpaceChar], on code units below 256. *)
Definition isStrWhiteSpaceChar (c : ascii) : bool :=
  let n := codeUnit c in
  ((9 <=? n)%N && (n <=? 13)%N) || (n =? 32)%N || (n =? 160)%N.

Fixpoint trimStart (s : string) : string :=
  match s with
  | String c s' => if isStrWhiteSpaceChar c then trimStart s' else s
  | EmptyString => s
  end.

Definition isDigit (c : ascii) : bool :=
  let n := codeUnit c in (48 <=? n)%N && (n <=? 57)%N.

Definition digitValue (c : ascii) : Z := (Z.of_N (codeUnit c) - 48)%Z.

(** The longest run of [DecimalDigits] at the head of [s]: the value
    accumulated on top of [acc], the number of digits added to [n], and
    the rest of the text. *)
Fixpoint readDigits (s : string) (acc n : Z) : Z * Z * string :=
  match s with
  | String c s' =>
      if isDigit c
      then readDigits s' (10 * acc + digitValue c)%Z (n + 1)%Z
      else (acc, n, s)
  | EmptyString => (acc, n, s)
  end.

(** [ExponentPart], when one is present at the head of [s]; 0 when the
    text after the mantissa is not an exponent part. *)
Definition readExponent (s : string) : Z :=
  match s with
  | String c s1 =>
      if (codeUnit c =? 101)%N || (codeUnit c =? 69)%N then
        match s1 with
        | String "+"%char s2 => let '(v, _, _) := readDigits s2 0 0 in v
        | String "-"%char s2 => let '(v, _, _) := readDigits s2 0 0 in (- v)%Z
        | _ => let '(v, _, _) := readDigits s1 0 0 in v
        end
      else 0%Z
  | EmptyString => 0%Z
  end.

Fixpoint startsWith (p s : string) : bool :=
  match p, s with
  | EmptyString, _ => true
  | String a p', String b s' => if Ascii.eqb a b then startsWith p' s' else false
  | String _ _, EmptyString => false
  end.

(** The longest prefix of [s] that is a [StrUnsignedDecimalLiteral],
    turned into a number of sign [neg]; [NaN] when there is none. *)
Definition parseUnsigned (neg : bool) (s : string) : number :=
  if startsWith "Infinity" s then S754_infinity neg
  else
    let '(i, ni, r1) := readDigits s 0 0 in
    match r1 with
    | String "."%char r2 =>
        let '(m, nf, r3) := readDigits r2 i 0 in
        if (ni =? 0)%Z && (nf =? 0)%Z then NaN
        else ofDecimal neg m (readExponent r3 - nf)
    | _ =>
        if (ni =? 0)%Z then NaN else ofDecimal neg i (readExponent r1)
    end.

(** [parseFloat(s)] on a string. *)
Definition parseFloat (s : string) : number :=
  match trimStart s with
  | String "+"%char r => parseUnsigned false r
  | String "-"%char r => parseUnsigned true r
  | r => parseUnsigned false r
  end.

(** A numeric literal of the source text. *)
Definition lit (s : string) : number := parseFloat s.

(** [s || d] on an optional string: [undefined], [null] and the empty
    string are falsy. *)
Definition orString (s : option string) (d : string) : string :=
  match s with
  | Some (String c r) => String c r
  | _ => d
  end.

(** [n || 0] on an array length. *)
Definition orZero (n : Z) : Z := if (n =? 0)%Z then 0%Z else n.

End JS.

(** ** The Leaflet calls the component makes

    Leaflet is an external library.  [latLng] is its point constructor,
    which raises on a [NaN] component ([None] here); [latLngBounds]
    extends an initially empty rectangle by every point of an array,
    keeping the smallest and largest latitude and longitude. *)

Module Leaflet.

Record LatLng := { lat : JS.number; lng : JS.number }.

Record LatLngBounds :=
  { southWest : option LatLng; northEast : option LatLng }.

Definition latLng (p : JS.number * JS.number) : option LatLng :=
  if JS.isNaN p.1 || JS.isNaN p.2 then None
  else Some {| lat := p.1; lng := p.2 |}.

Definition extend (b : LatLngBounds) (p : LatLng) : LatLngBounds :=
  match southWest b, northEast b with
  | Some sw, Some ne =>
      {| southWest := Some {| lat := JS.Math_min (lat p) (lat sw);
                              lng := JS.Math_min (lng p) (lng sw) |};
         northEast := Some {| lat := JS.Math_max (lat p) (lat ne);
                              lng := JS.Math_max (lng p) (lng ne) |} |}
  | _, _ => {| southWest := Some p; northEast := Some p |}
  end.

Definition latLngBounds (latlngs : list (JS.number * JS.number))
  : option LatLngBounds :=
  foldl (fun acc p =>
           match acc, latLng p with
           | Some b, Some q => Some (extend b q)
           | _, _ => None
           end)
        (Some {| southWest := None; northEast := None |}) latlngs.

End Leaflet.

(** ** Data model *)

(** Modelled from the spec: the record types of [@/lib/types], which the
    component imports and which are not among the sources.  Fields the
    component reads through [?.], [||] or a truthiness test are optional;
    the others are always present. *)
Record StopLocation := {
  name : string;
  latitude : option string;
  longitude : option string;
  isTransportHub : bool
}.

(** Modelled from the spec: a stop of a route, with its optional
    location. *)
Record Stop := {
  stop_id : Z;
  stop : option StopLocation;
  totalDistance : JS.number
}.

(** Modelled from the spec: a point of a path variant. *)
Record FlowCoordinate := { lat : JS.number; lon : JS.number }.

(** Modelled from the spec: a path variant; its coordinate array may be
    missing and may hold [null] entries. *)
Record PathVariant := {
  flowCoordinates : option (list (option FlowCoordinate))
}.

(** Modelled from the spec: a route record. *)
Record ProcessedRoute := {
  route_id : Z;
  number : string;
  firstPoint : string;
  lastPoint : string;
  avgSpeed : JS.number;
  routLength : JS.number;
  stopCount : Z;
  carrier : string;
  stops : option (list Stop);
  routes : option (list PathVariant)
}.

(** ** Array operations with a threaded accumulator *)

(** [arr.push(x)]. *)
Definition push {A} (arr : list A) (x : A) : list A := arr ++ [x].

(** [xs?.forEach(f)], where [f] updates the state [s]. *)
Definition forEach {A S} (xs : option (list A)) (f : S -> A -> S) (s : S) : S :=
  match xs with
  | Some l => foldl f s l
  | None => s
  end.

(** ** Coordinate checks *)

(** [parseFloat(stop.stop?.latitude || "0")] and the same for the
    longitude. *)
Definition stopLat (s : Stop) : JS.number :=
  JS.parseFloat (JS.orString (stop s ≫= latitude) "0").

Definition stopLon (s : Stop) : JS.number :=
  JS.parseFloat (JS.orString (stop s ≫= longitude) "0").

(** The test of [MapUpdater] on a parsed stop position. *)
Definition boundsStopValid (lat lon : JS.number) : bool :=
  JS.truthy lat && JS.truthy lon
  && negb (JS.isNaN lat) && negb (JS.isNaN lon)
  && JS.strictNe lat JS.zero && JS.strictNe lon JS.zero.

(** The test on a flow coordinate, written the same way in [MapUpdater],
    in the route filter and in the polyline filter. *)
Definition flowValid (coord : option FlowCoordinate) : bool :=
  match coord with
  | Some c =>
      JS.truthy (lat c) && JS.truthy (lon c)
      && negb (JS.isNaN (lat c)) && negb (JS.isNaN (lon c))
  | None => false
  end.

(** The test under which the stop-marker callback returns [null]. *)
Definition markerStopInvalid (lat lon : JS.number) : bool :=
  negb (JS.truthy lat) || negb (JS.truthy lon)
  || JS.isNaN lat || JS.isNaN lon
  || JS.strictEq lat JS.zero || JS.strictEq lon JS.zero.

(** ** [getColorBySpeed] *)

Definition getColorBySpeed (speed : JS.number) : string :=
  if JS.ge speed (JS.lit "37") then "#22c55e"
  else if JS.ge speed (JS.lit "36.5") then "#eab308"
  else "#ef4444".

(** ** [MapUpdater] *)

Inductive MapCommand :=
| FitBounds (bounds : Leaflet.LatLngBounds) (padding : Z * Z).

(** The array [bounds] after the two nested loops over one route. *)
Definition addRouteBounds (bounds : list (JS.number * JS.number))
    (route : ProcessedRoute) : list (JS.number * JS.number) :=
  let bounds :=
    forEach (stops route)
      (fun bounds stop =>
         let lat := stopLat stop in
         let lon := stopLon stop in
         if boundsStopValid lat lon then push bounds (lat, lon) else bounds)
      bounds in
  forEach (routes route)
    (fun bounds variant =>
       forEach (flowCoordinates variant)
         (fun bounds coord =>
            if flowValid coord then
              match coord with
              | Some c => push bounds (lat c, lon c)
              | None => bounds
              end
            else bounds)
         bounds)
    bounds.

Definition collectBounds (routes : list ProcessedRoute)
  : list (JS.number * JS.number) :=
  foldl addRouteBounds [] routes.

(** The body of the effect: the commands sent to the map, or [None] when
    a Leaflet call raises. *)
Definition MapUpdater_effect (routes : list ProcessedRoute)
  : option (list MapCommand) :=
  if (0 <? length routes)%nat then
    let bounds := collectBounds routes in
    if (0 <? length bounds)%nat then
      match Leaflet.latLngBounds bounds with
      | Some b => Some [FitBounds b (50, 50)%Z]
      | None => None
      end
    else Some []
  else Some [].

(** The dependency array [[routes, map]]: the identities of the two
    objects, compared with [Object.is] between renders. *)
Record Deps := { dep_routes : nat; dep_map : nat }.

Definition sameDeps (a b : Deps) : bool :=
  (dep_routes a =? dep_routes b)%nat && (dep_map a =? dep_map b)%nat.

(** An array object: its identity and its elements. *)
Record ArrayRef (A : Type) := { ref_id : nat; elements : list A }.
Arguments ref_id {A} _.
Arguments elements {A} _.

(** One render of [MapUpdater]: the effect runs on the first render and
    whenever a dependency differs from the previous render's. *)
Definition MapUpdater (prev : option Deps)
    (routes : ArrayRef ProcessedRoute) (map : nat)
  : option Deps * option (list MapCommand) :=
  let deps := {| dep_routes := ref_id routes; dep_map := map |} in
  match prev with
  | Some d =>
      if sameDeps d deps then (Some deps, Some [])
      else (Some deps, MapUpdater_effect (elements routes))
  | None => (Some deps, MapUpdater_effect (elements routes))
  end.

(** ** Route selection *)

(** The predicate of the filter in [displayRoutes]. *)
Definition hasValidFlow (route : ProcessedRoute) : bool :=
  match routes route with
  | Some variants =>
      existsb
        (fun variant =>
           match flowCoordinates variant with
           | Some coords =>
               (0 <? length coords)%nat && existsb flowValid coords
           | None => false
           end)
        variants
  | None => false
  end.

Definition displayRoutes (selectedRoute : option ProcessedRoute)
    (routes : list ProcessedRoute) : list ProcessedRoute :=
  match selectedRoute with
  | Some r => [r]
  | None => take 30 (List.filter hasValidFlow routes)
  end.

(** ** Overlays *)

(** A number as the popup shows it: [x.toFixed(digits)] or [{x}]. *)
Inductive NumberText :=
| ToFixed (x : JS.number) (digits : nat)
| Plain (x : JS.number).

Record PathOptions := {
  color : string;
  weight : Z;
  opacity : JS.number
}.

Record RoutePopup := {
  popupNumber : string;
  popupFirstPoint : string;
  popupLastPoint : string;
  popupSpeed : NumberText;
  popupLength : NumberText;
  popupStops : Z;
  popupCarrier : string
}.

Record Polyline := {
  key : Z * nat;
  positions : list (JS.number * JS.number);
  pathOptions : PathOptions;
  click : ProcessedRoute;
  popup : RoutePopup
}.

Definition isSelected (selectedRoute : option ProcessedRoute) : bool :=
  match selectedRoute with Some _ => true | None => false end.

(** The callback of [route.routes?.map]: the polyline of one path
    variant, or [null]. *)
Definition routeLine (selectedRoute : option ProcessedRoute)
    (route : ProcessedRoute) (idx : nat) (variant : PathVariant)
  : option Polyline :=
  match flowCoordinates variant with
  | None => None
  | Some coords =>
      if (length coords =? 0)%nat then None
      else
        let coordinates :=
          omap (fun coord => c ← coord; Some (lat c, lon c))
               (List.filter flowValid coords) in
        if (length coordinates =? 0)%nat then None
        else
          let color :=
            if isSelected selectedRoute then "#3b82f6"
            else getColorBySpeed (avgSpeed route) in
          Some {| key := (route_id route, idx);
                  positions := coordinates;
                  pathOptions :=
                    {| color := color;
                       weight := (if isSelected selectedRoute then 5 else 3)%Z;
                       opacity := if isSelected selectedRoute
                                  then JS.lit "0.9" else JS.lit "0.6" |};
                  click := route;
                  popup :=
                    {| popupNumber := number route;
                       popupFirstPoint := firstPoint route;
                       popupLastPoint := lastPoint route;
                       popupSpeed := ToFixed (avgSpeed route) 1;
                       popupLength := Plain (routLength route);
                       popupStops := stopCount route;
                       popupCarrier := carrier route |} |}
  end.

Definition routeLines (selectedRoute : option ProcessedRoute)
    (route : ProcessedRoute) : option (list (option Polyline)) :=
  imap (routeLine selectedRoute route) <$> routes route.

Record MarkerPopup := {
  popupName : option string;
  popupDistance : NumberText;
  startBadge : bool;
  endBadge : bool;
  hubBadge : bool
}.

Record Marker := {
  markerKey : Z;
  position : JS.number * JS.number;
  markerSize : Z;
  bgColor : string;
  pulse : bool;
  markerPopup : MarkerPopup
}.

(** [stop.stop?.isTransportHub], as a condition. *)
Definition hubFlag (s : Stop) : bool :=
  match stop s with
  | Some loc => isTransportHub loc
  | None => false
  end.

(** The callback of [route.stops?.map]: the marker of one stop, or
    [null]. *)
Definition stopMarker (route : ProcessedRoute) (stopIdx : nat) (s : Stop)
  : option Marker :=
  let lat := stopLat s in
  let lon := stopLon s in
  if markerStopInvalid lat lon then None
  else
    let isHub := hubFlag s in
    let isFirst := (stopIdx =? 0)%nat in
    let isLast :=
      (Z.of_nat stopIdx =?
         JS.orZero (from_option (fun l => Z.of_nat (length l)) 0 (stops route)) - 1)%Z in
    let markerSize : Z :=
      (if isHub then 24 else if isFirst || isLast then 20 else 16)%Z in
    let bgColor :=
      if isHub then "#ef4444"
      else if isFirst then "#10b981"
      else if isLast then "#f59e0b"
      else "#3b82f6" in
    Some {| markerKey := stop_id s;
            position := (lat, lon);
            markerSize := markerSize;
            bgColor := bgColor;
            pulse := isHub || isFirst || isLast;
            markerPopup :=
              {| popupName := name <$> stop s;
                 popupDistance := ToFixed (totalDistance s) 1;
                 startBadge := isFirst;
                 endBadge := isLast;
                 hubBadge := isHub |} |}.

Definition stopMarkers (selectedRoute : option ProcessedRoute)
    (route : ProcessedRoute) : option (list (option Marker)) :=
  match selectedRoute with
  | Some _ => imap (stopMarker route) <$> stops route
  | None => None
  end.

(** What the map draws of an array of elements: [null] and [undefined]
    children draw nothing. *)
Definition drawn {A} (children : option (list (option A))) : list A :=
  from_option (omap id) [] children.

(** ** [RouteMap] *)

Record RouteLayer := {
  layerKey : Z;
  lines : option (list (option Polyline));
  markers : option (list (option Marker))
}.

Definition routeLayer (selectedRoute : option ProcessedRoute)
    (route : ProcessedRoute) : RouteLayer :=
  {| layerKey := route_id route;
     lines := routeLines selectedRoute route;
     markers := stopMarkers selectedRoute route |}.

Inductive View :=
| Loading
| MapView (layers : list RouteLayer) (legend : bool).

Record Props := {
  routesProp : list ProcessedRoute;
  selectedRoute : option ProcessedRoute
}.

(** The state kept between renders: the [mounted] flag, the next fresh
    object identity, the map instance [useMap] returns, and the
    dependencies [MapUpdater] saw last (none before it is mounted). *)
Record State := {
  mounted : bool;
  nextRef : nat;
  mapRef : nat;
  updaterDeps : option Deps
}.

Definition initial (map : nat) : State :=
  {| mounted := false; nextRef := 0; mapRef := map; updaterDeps := None |}.

(** The array [displayRoutes] as the render builds it: an array literal
    when a route is selected, the result of [filter] then [slice]
    otherwise, in both cases a new object. *)
Definition allocDisplayRoutes (st : State) (p : Props)
  : ArrayRef ProcessedRoute * nat :=
  match selectedRoute p with
  | Some _ =>
      ({| ref_id := nextRef st;
          elements := displayRoutes (selectedRoute p) (routesProp p) |},
       S (nextRef st))
  | None =>
      ({| ref_id := S (nextRef st);
          elements := displayRoutes (selectedRoute p) (routesProp p) |},
       S (S (nextRef st)))
  end.

(** One render of [RouteMap] with its effects: the next state, the view
    and the commands sent to the map ([None] when a call raises).  The
    first render shows the placeholder and its effect sets [mounted]. *)
Definition RouteMap (st : State) (p : Props)
  : State * View * option (list MapCommand) :=
  if negb (mounted st) then
    ({| mounted := true; nextRef := nextRef st; mapRef := mapRef st;
        updaterDeps := updaterDeps st |}, Loading, Some [])
  else
    let '(shown, next) := allocDisplayRoutes st p in
    let '(deps, commands) := MapUpdater (updaterDeps st) shown (mapRef st) in
    ({| mounted := true; nextRef := next; mapRef := mapRef st;
        updaterDeps := deps |},
     MapView (routeLayer (selectedRoute p) <$> elements shown)
             (isSelected (selectedRoute p)),
     commands).

(** Successive renders, collecting the views and the commands. *)
Fixpoint renders (st : State) (ps : list Props)
  : list (View * option (list MapCommand)) :=
  match ps with
  | [] => []
  | p :: ps' =>
      let '(st', v, c) := RouteMap st p in
      (v, c) :: renders st' ps'
  end.

(** ** Vocabulary of the specification *)

Definition is_zero (x : JS.number) : bool :=
  match x with S754_zero _ => true | _ => false end.

Definition is_finite (x : JS.number) : bool :=
  match x with S754_zero _ | S754_finite _ _ _ => true | _ => false end.

(** A number the type [JS.number] can hold at run time: a canonical
    binary64 value. *)
Definition well_formed (x : JS.number) : bool :=
  valid_binary JS.prec JS.emax x.

(** A finite canonical number. *)
Definition plain (x : JS.number) : Prop :=
  is_finite x = true /\ well_formed x = true.

(** The rational a finite number stands for. *)
Definition value (x : JS.number) : Q :=
  match x with
  | S754_finite s m e =>
      let mz := cond_Zopp s (Zpos m) in
      if (0 <=? e)%Z then inject_Z (mz * 2 ^ e) else mz # Z.to_pos (2 ^ (- e))
  | _ => 0
  end.

(** The integer [value x * 2 ^ k], for [k] large enough. *)
Definition scaled (k : Z) (x : JS.number) : Z :=
  match x with
  | S754_finite s m e => cond_Zopp s (Zpos m) * 2 ^ (e + k)
  | _ => 0
  end.

(** The exponent of [x] is at least [- k]. *)
Definition exponent_above (k : Z) (x : JS.number) : Prop :=
  match x with
  | S754_finite _ _ e => (0 <= e + k)%Z
  | _ => True
  end.

(** The tiers of the Performance Classifier as the specification words
    them, to be compared with [getColorBySpeed]. *)
Inductive Tier := Fast | Medium | Slow.

Definition spec_classify (v : Q) : Tier :=
  if Qle_bool 37 v then Fast
  else if Qle_bool (73 # 2) v then Medium
  else Slow.

Definition tierColor (t : Tier) : string :=
  match t with
  | Fast => "#22c55e"
  | Medium => "#eab308"
  | Slow => "#ef4444"
  end.

(** A pair of numbers neither of which is [NaN] or a zero. *)
Definition usable (lat lon : JS.number) : Prop :=
  JS.isNaN lat = false /\ JS.isNaN lon = false /\
  is_zero lat = false /\ is_zero lon = false.

(** [p] is the position of a stop of [route] that passes the stop test. *)
Definition ValidStopPoint (route : ProcessedRoute) (p : JS.number * JS.number)
  : Prop :=
  exists ss s,
    stops route = Some ss /\ s ∈ ss /\
    p = (stopLat s, stopLon s) /\ usable (stopLat s) (stopLon s).

(** [p] is a flow coordinate of a path variant of [route] that passes the
    flow test. *)
Definition ValidFlowPoint (route : ProcessedRoute) (p : JS.number * JS.number)
  : Prop :=
  exists variants variant coords c,
    routes route = Some variants /\ variant ∈ variants /\
    flowCoordinates variant = Some coords /\ Some c ∈ coords /\
    p = (lat c, lon c) /\ usable (lat c) (lon c).

(** The merged point set of a route list. *)
Definition ValidPoint (rs : list ProcessedRoute) (p : JS.number * JS.number)
  : Prop :=
  exists route, route ∈ rs /\ (ValidStopPoint route p \/ ValidFlowPoint route p).

(** [route] has a path variant with a flow coordinate that passes the flow
    test. *)
Definition HasValidGeometry (route : ProcessedRoute) : Prop :=
  exists p, ValidFlowPoint route p.

(** [p] lies in the rectangle of corners [sw] and [ne]. *)
Definition within (sw ne : Leaflet.LatLng) (p : JS.number * JS.number) : Prop :=
  JS.le (Leaflet.lat sw) p.1 = true /\ JS.le p.1 (Leaflet.lat ne) = true /\
  JS.le (Leaflet.lng sw) p.2 = true /\ JS.le p.2 (Leaflet.lng ne) = true.

(** A pair of numbers neither of which is [NaN]. *)
Definition nonNaN (p : JS.number * JS.number) : Prop :=
  JS.isNaN p.1 = false /\ JS.isNaN p.2 = false.

(** The corners of a rectangle are coordinates of points of [pts]. *)
Definition attained (sw ne : Leaflet.LatLng) (pts : list (JS.number * JS.number))
  : Prop :=
  (exists p, p ∈ pts /\ Leaflet.lat sw = p.1) /\
  (exists p, p ∈ pts /\ Leaflet.lng sw = p.2) /\
  (exists p, p ∈ pts /\ Leaflet.lat ne = p.1) /\
  (exists p, p ∈ pts /\ Leaflet.lng ne = p.2).



(** The number of fit commands a render sent. *)
Definition fits (c : option (list MapCommand)) : nat :=
  from_option length 0 c.

(** The position [MapUpdater] pushes for a stop, if any. *)
Definition stopPoint (s : Stop) : option (JS.number * JS.number) :=
  if boundsStopValid (stopLat s) (stopLon s)
  then Some (stopLat s, stopLon s) else None.

(** The coordinates of a path variant that pass the flow test, in order. *)
Definition variantPoints (v : PathVariant) : list (JS.number * JS.number) :=
  match flowCoordinates v with
  | Some coords =>
      omap (fun coord => c ← coord; Some (lat c, lon c))
           (List.filter flowValid coords)
  | None => []
  end.

(** The points one route adds to the accumulated array. *)
Definition routePoints (route : ProcessedRoute) : list (JS.number * JS.number) :=
  omap stopPoint (default [] (stops route))
  ++ concat (variantPoints <$> default [] (routes route)).

(** A position that is drawn for [route]: on one of its polylines, or of
    one of its markers. *)
Definition drawnAt (selected : option ProcessedRoute) (route : ProcessedRoute)
    (q : JS.number * JS.number) : Prop :=
  (exists line, line ∈ drawn (routeLines selected route) /\ q ∈ positions line) \/
  (exists m, m ∈ drawn (stopMarkers selected route) /\ q = position m).

(** ** Sample data *)

Definition sampleStop (id : Z) (label lat lon : string) (hub : bool) : Stop :=
  {| stop_id := id;
     stop := Some {| name := label; latitude := Some lat;
                     longitude := Some lon; isTransportHub := hub |};
     totalDistance := JS.lit "0" |}.

Definition stopA : Stop := sampleStop 1 "A" "40.40" "49.86" false.
Definition stopB : Stop := sampleStop 2 "B" "40.405" "49.865" true.
Definition stopC : Stop := sampleStop 3 "C" "40.41" "49.87" false.

(** A stop whose latitude text reads [Infinity]. *)
Definition stopFar : Stop := sampleStop 4 "Far" "Infinity" "49.8671" false.

Definition flowPoint (lat lon : string) : option FlowCoordinate :=
  Some {| lat := JS.lit lat; lon := JS.lit lon |}.

(** Route R1 of the end-to-end scenario: one path variant with the points
    (40.40, 49.86), (0, 0), (40.41, 49.87). *)
Definition routeR1 : ProcessedRoute :=
  {| route_id := 1; number := "1"; firstPoint := "A"; lastPoint := "C";
     avgSpeed := JS.lit "36.75"; routLength := JS.lit "12.5";
     stopCount := 3; carrier := "BakuBus";
     stops := Some [stopA; stopB; stopC];
     routes := Some [ {| flowCoordinates :=
                           Some [flowPoint "40.40" "49.86"; flowPoint "0" "0";
                                 flowPoint "40.41" "49.87"] |} ] |}.

Definition propsR1 : Props :=
  {| routesProp := [routeR1]; selectedRoute := None |}.


(** A route with a valid stop and no valid flow coordinate. *)
Definition routeNoGeometry : ProcessedRoute :=
  {| route_id := 8; number := "8"; firstPoint := "A"; lastPoint := "A";
     avgSpeed := JS.lit "20"; routLength := JS.lit "1";
     stopCount := 1; carrier := "BakuBus";
     stops := Some [stopA];
     routes := Some [ {| flowCoordinates := Some [flowPoint "0" "0"; None] |};
                      {| flowCoordinates := None |} ] |}.

(** A route with no valid point at all. *)
Definition routeNoPoints : ProcessedRoute :=
  {| route_id := 9; number := "9"; firstPoint := "?"; lastPoint := "?";
     avgSpeed := JS.lit "20"; routLength := JS.lit "1";
     stopCount := 2; carrier := "BakuBus";
     stops := Some [sampleStop 5 "Nowhere" "0" "0" false;
                    {| stop_id := 6; stop := None; totalDistance := JS.zero |}];
     routes := Some [ {| flowCoordinates := Some [flowPoint "0" "0"; None] |} ] |}.

(** Route R1 selected, from an empty supplied list, in a mounted state. *)
Definition propsSelectedR1 : Props :=
  {| routesProp := []; selectedRoute := Some routeR1 |}.

Definition stateMounted : State :=
  {| mounted := true; nextRef := 3; mapRef := 0; updaterDeps := None |}.

(** ** Numbers: order and thresholds *)

Lemma digits2_pos_bounds (m : positive) :
  (2 ^ (Zpos (digits2_pos m) - 1) <= Zpos m < 2 ^ Zpos (digits2_pos m))%Z.
Proof.
  induction m as [p IH|p IH|]; simpl digits2_pos.
  - rewrite Pos2Z.inj_succ.
    replace (Z.succ (Z.pos (digits2_pos p)) - 1)%Z
      with (Z.succ (Z.pos (digits2_pos p) - 1))%Z by lia.
    rewrite !Z.pow_succ_r by lia. lia.
  - rewrite Pos2Z.inj_succ.
    replace (Z.succ (Z.pos (digits2_pos p)) - 1)%Z
      with (Z.succ (Z.pos (digits2_pos p) - 1))%Z by lia.
    rewrite !Z.pow_succ_r by lia. lia.
  - simpl. lia.
Qed.

(** A canonical mantissa is below [2^53], and at least [2^52] above the
    smallest exponent. *)
Lemma bounded_inv m e :
  bounded JS.prec JS.emax m e = true ->
  (Zpos m < 2 ^ 53 /\ (-1074 <= e <= 971) /\ (-1074 < e -> 2 ^ 52 <= Zpos m))%Z.
Proof.
  unfold bounded, canonical_mantissa, fexp, emin, JS.prec, JS.emax.
  intros H. apply andb_true_iff in H as [Hc He].
  apply Z.eqb_eq in Hc. apply Z.leb_le in He.
  pose proof (digits2_pos_bounds m) as [Hlo Hhi].
  set (d := Zpos (digits2_pos m)) in *.
  assert (Hd : (d <= 53)%Z) by lia.
  split; [|split].
  - eapply Z.lt_le_trans; [exact Hhi|]. apply Z.pow_le_mono_r; lia.
  - lia.
  - intros Hne. assert (Hd53 : d = 53%Z) by lia. rewrite Hd53 in Hlo. exact Hlo.
Qed.

Lemma value_scaled (k : Z) (x : JS.number) :
  (0 <= k)%Z -> exponent_above k x ->
  (value x == scaled k x # Z.to_pos (2 ^ k))%Q.
Proof.
  intros Hk Hx. assert (P : (0 < 2 ^ k)%Z) by (apply Z.pow_pos_nonneg; lia).
  destruct x as [s|s| |s m e]; try (unfold Qeq; simpl; lia).
  simpl in Hx. unfold value, scaled. set (mz := cond_Zopp s (Z.pos m)).
  destruct (0 <=? e)%Z eqn:E; unfold Qeq; simpl Qnum; simpl Qden.
  - apply Z.leb_le in E. rewrite Z2Pos.id by exact P.
    rewrite Z.pow_add_r by lia. lia.
  - apply Z.leb_gt in E.
    rewrite !Z2Pos.id by (try exact P; apply Z.pow_pos_nonneg; lia).
    replace k with ((e + k) + - e)%Z at 1 by lia.
    rewrite (Z.pow_add_r 2 (e + k) (- e)) by lia. lia.
Qed.

Lemma Qle_scaled (k : Z) (x y : JS.number) :
  (0 <= k)%Z -> exponent_above k x -> exponent_above k y ->
  (value x <= value y)%Q <-> (scaled k x <= scaled k y)%Z.
Proof.
  intros Hk Hx Hy. rewrite (value_scaled k x Hk Hx), (value_scaled k y Hk Hy).
  assert (P : (0 < 2 ^ k)%Z) by (apply Z.pow_pos_nonneg; lia).
  unfold Qle. simpl Qnum; simpl Qden. rewrite Z2Pos.id by exact P. nia.
Qed.

(** Canonical mantissas and exponents are ordered lexicographically. *)
Lemma scaled_lt (k : Z) (m1 m2 : positive) (e1 e2 : Z) :
  bounded JS.prec JS.emax m1 e1 = true ->
  bounded JS.prec JS.emax m2 e2 = true ->
  (1074 <= k)%Z -> (e1 < e2)%Z ->
  (Zpos m1 * 2 ^ (e1 + k) < Zpos m2 * 2 ^ (e2 + k))%Z.
Proof.
  intros H1 H2 Hk Hlt.
  apply bounded_inv in H1 as (Hm1 & He1 & _).
  apply bounded_inv in H2 as (_ & He2 & Hn2).
  specialize (Hn2 ltac:(lia)).
  assert (P : (0 < 2 ^ (e1 + k))%Z) by (apply Z.pow_pos_nonneg; lia).
  assert (M : (2 ^ (e1 + k + 1) <= 2 ^ (e2 + k))%Z)
    by (apply Z.pow_le_mono_r; lia).
  rewrite Z.pow_add_r in M by lia. change (2 ^ 1)%Z with 2%Z in M.
  change (2 ^ 53)%Z with 9007199254740992%Z in Hm1.
  change (2 ^ 52)%Z with 4503599627370496%Z in Hn2.
  nia.
Qed.

Lemma SFleb_value (x y : JS.number) :
  is_finite x = true -> is_finite y = true ->
  well_formed x = true -> well_formed y = true ->
  SFleb x y = true <-> (value x <= value y)%Q.
Proof.
  intros Fx Fy Wx Wy. pose (k := 1074%Z).
  assert (Hk : (1074 <= k)%Z) by (unfold k; lia). clearbody k.
  assert (Ex : exponent_above k x).
  { destruct x as [| | |s m e]; simpl; auto.
    apply bounded_inv in Wx as (_ & He & _). lia. }
  assert (Ey : exponent_above k y).
  { destruct y as [| | |s m e]; simpl; auto.
    apply bounded_inv in Wy as (_ & He & _). lia. }
  rewrite (Qle_scaled k x y ltac:(lia) Ex Ey).
  unfold SFleb, SFcompare, scaled.
  destruct x as [sx|sx| |sx mx ex], y as [sy|sy| |sy my ey]; try discriminate.
  - split; [lia|reflexivity].
  - simpl in Ey.
    assert (P : (0 < 2 ^ (ey + k))%Z) by (apply Z.pow_pos_nonneg; lia).
    destruct sy; simpl; split; intros; try discriminate; try reflexivity; nia.
  - simpl in Ex.
    assert (P : (0 < 2 ^ (ex + k))%Z) by (apply Z.pow_pos_nonneg; lia).
    destruct sx; simpl; split; intros; try discriminate; try reflexivity; nia.
  - simpl in Ex, Ey. unfold well_formed in Wx, Wy. simpl in Wx, Wy.
    assert (Px : (0 < 2 ^ (ex + k))%Z) by (apply Z.pow_pos_nonneg; lia).
    assert (Py : (0 < 2 ^ (ey + k))%Z) by (apply Z.pow_pos_nonneg; lia).
    change (PosDef.Pos.compare_cont Eq) with Pos.compare.
    destruct sx, sy; simpl cond_Zopp.
    + destruct (Z.compare_spec ex ey) as [->|Hlt|Hgt].
      * rewrite Pos2Z.inj_compare.
        destruct (Z.compare_spec (Zpos mx) (Zpos my)); simpl;
          split; intros; try discriminate; try reflexivity; nia.
      * pose proof (scaled_lt k mx my ex ey Wx Wy Hk Hlt).
        split; [discriminate|]. intros. lia.
      * pose proof (scaled_lt k my mx ey ex Wy Wx Hk Hgt).
        split; [lia|reflexivity].
    + split; [intros _; nia|reflexivity].
    + split; [discriminate|]. intros. nia.
    + destruct (Z.compare_spec ex ey) as [->|Hlt|Hgt].
      * rewrite Pos2Z.inj_compare.
        destruct (Z.compare_spec (Zpos mx) (Zpos my)); simpl;
          split; intros; try discriminate; try reflexivity; nia.
      * pose proof (scaled_lt k mx my ex ey Wx Wy Hk Hlt).
        split; [lia|reflexivity].
      * pose proof (scaled_lt k my mx ey ex Wy Wx Hk Hgt).
        split; [discriminate|]. intros. lia.
Qed.

Lemma lit_37 : JS.lit "37" = S754_finite false 5207287069147136 (-47).
Proof. vm_compute. reflexivity. Qed.

Lemma lit_36_5 : JS.lit "36.5" = S754_finite false 5136918324969472 (-47).
Proof. vm_compute. reflexivity. Qed.

Lemma ge_37 (x : JS.number) :
  is_finite x = true -> well_formed x = true ->
  JS.ge x (JS.lit "37") = true <-> (37 <= value x)%Q.
Proof.
  intros Hf Hv. unfold JS.ge. rewrite lit_37.
  rewrite SFleb_value by (try assumption; reflexivity).
  assert (E : (value (S754_finite false 5207287069147136 (-47)) == 37)%Q)
    by reflexivity.
  rewrite E. reflexivity.
Qed.

Lemma ge_36_5 (x : JS.number) :
  is_finite x = true -> well_formed x = true ->
  JS.ge x (JS.lit "36.5") = true <-> (73 # 2 <= value x)%Q.
Proof.
  intros Hf Hv. unfold JS.ge. rewrite lit_36_5.
  rewrite SFleb_value by (try assumption; reflexivity).
  assert (E : (value (S754_finite false 5136918324969472 (-47)) == 73 # 2)%Q)
    by reflexivity.
  rewrite E. reflexivity.
Qed.

(** *** The order of numbers, without reference to values *)

Ltac split_compare :=
  change PosDef.Pos.compare_cont with Pos.compare_cont in *;
  repeat match goal with
         | H : context [Z.compare ?a ?b] |- _ => destruct (Z.compare_spec a b)
         | |- context [Z.compare ?a ?b] => destruct (Z.compare_spec a b)
         | H : context [Pos.compare_cont Eq ?a ?b] |- _ =>
             change (Pos.compare_cont Eq a b) with (Pos.compare a b) in *;
             destruct (Pos.compare_spec a b)
         | |- context [Pos.compare_cont Eq ?a ?b] =>
             change (Pos.compare_cont Eq a b) with (Pos.compare a b) in *;
             destruct (Pos.compare_spec a b)
         end.

Lemma SFleb_refl (x : JS.number) : JS.isNaN x = false -> SFleb x x = true.
Proof.
  unfold SFleb, SFcompare. destruct x as [s|s| |s m e]; intros H;
    try discriminate; try (destruct s; reflexivity).
  destruct s; split_compare; simpl; try reflexivity; lia.
Qed.

Lemma SFleb_trans (x y z : JS.number) :
  SFleb x y = true -> SFleb y z = true -> SFleb x z = true.
Proof.
  unfold SFleb, SFcompare.
  destruct x as [sx|sx| |sx mx ex], y as [sy|sy| |sy my ey],
      z as [sz|sz| |sz mz ez];
    try discriminate; try reflexivity;
    repeat match goal with s : bool |- _ => destruct s end;
    try discriminate; try reflexivity;
    intros H1 H2; split_compare; simpl in *;
    try discriminate; try reflexivity; try lia.
Qed.

Lemma SFltb_leb (x y : JS.number) : SFltb x y = true -> SFleb x y = true.
Proof. unfold SFltb, SFleb. destruct (SFcompare x y) as [[]|]; easy. Qed.

Lemma SFleb_total (x y : JS.number) :
  JS.isNaN x = false -> JS.isNaN y = false ->
  SFltb y x = false -> SFleb x y = true.
Proof.
  unfold SFltb, SFleb, SFcompare.
  destruct x as [sx|sx| |sx mx ex], y as [sy|sy| |sy my ey];
    try discriminate; try reflexivity;
    repeat match goal with s : bool |- _ => destruct s end;
    try discriminate; try reflexivity;
    intros _ _ H; split_compare; simpl in *;
    try discriminate; try reflexivity; try lia.
Qed.

Lemma Math_min_spec (a b : JS.number) :
  JS.isNaN a = false -> JS.isNaN b = false ->
  JS.isNaN (JS.Math_min a b) = false /\
  SFleb (JS.Math_min a b) a = true /\ SFleb (JS.Math_min a b) b = true /\
  (JS.Math_min a b = a \/ JS.Math_min a b = b).
Proof.
  intros Ha Hb. unfold JS.Math_min. rewrite Ha, Hb. simpl.
  assert (G : forall r : JS.number, r = (if SFltb b a then b else a) ->
              JS.isNaN r = false /\ SFleb r a = true /\ SFleb r b = true /\
              (r = a \/ r = b)).
  { intros r ->. destruct (SFltb b a) eqn:E.
    - repeat split; auto using SFltb_leb, SFleb_refl.
    - repeat split; auto using SFleb_total, SFleb_refl. }
  destruct a as [sa|sa| |sa ma ea]; try discriminate;
    destruct b as [sb|sb| |sb mb eb]; try discriminate;
    try (apply G; reflexivity).
  destruct sa, sb; simpl; repeat split; auto.
Qed.

Lemma Math_max_spec (a b : JS.number) :
  JS.isNaN a = false -> JS.isNaN b = false ->
  JS.isNaN (JS.Math_max a b) = false /\
  SFleb a (JS.Math_max a b) = true /\ SFleb b (JS.Math_max a b) = true /\
  (JS.Math_max a b = a \/ JS.Math_max a b = b).
Proof.
  intros Ha Hb. unfold JS.Math_max. rewrite Ha, Hb. simpl.
  assert (G : forall r : JS.number, r = (if SFltb a b then b else a) ->
              JS.isNaN r = false /\ SFleb a r = true /\ SFleb b r = true /\
              (r = a \/ r = b)).
  { intros r ->. destruct (SFltb a b) eqn:E.
    - repeat split; auto using SFltb_leb, SFleb_refl.
    - repeat split; auto using SFleb_total, SFleb_refl. }
  destruct a as [sa|sa| |sa ma ea]; try discriminate;
    destruct b as [sb|sb| |sb mb eb]; try discriminate;
    try (apply G; reflexivity).
  destruct sa, sb; simpl; repeat split; auto.
Qed.

(** *** The three coordinate tests *)

Lemma truthy_iff (x : JS.number) :
  JS.truthy x = true <-> JS.isNaN x = false /\ is_zero x = false.
Proof. destruct x; simpl; intuition congruence. Qed.

Lemma strictNe_zero (x : JS.number) :
  JS.isNaN x = false -> JS.strictNe x JS.zero = negb (is_zero x).
Proof. destruct x as [s|s| |s m e]; try discriminate; destruct s; reflexivity. Qed.

Lemma boundsStopValid_usable (lat lon : JS.number) :
  boundsStopValid lat lon = true <-> usable lat lon.
Proof.
  unfold boundsStopValid, usable. rewrite !andb_true_iff, !truthy_iff.
  rewrite !negb_true_iff. split.
  - tauto.
  - intros (H1 & H2 & H3 & H4). rewrite !strictNe_zero, H3, H4 by assumption.
    tauto.
Qed.

Lemma markerStopInvalid_usable (lat lon : JS.number) :
  markerStopInvalid lat lon = false <-> usable lat lon.
Proof.
  unfold markerStopInvalid, usable.
  destruct lat as [s|s| |s m e], lon as [s'|s'| |s' m' e']; simpl;
    try (destruct s); try (destruct s'); simpl; intuition congruence.
Qed.

Lemma flowValid_usable (coord : option FlowCoordinate) :
  flowValid coord = true <-> exists c, coord = Some c /\ usable (lat c) (lon c).
Proof.
  unfold flowValid, usable. destruct coord as [c|].
  - rewrite !andb_true_iff, !truthy_iff, !negb_true_iff. split.
    + intros H. exists c. tauto.
    + intros (c' & [= <-] & H). tauto.
  - split; [discriminate|]. intros (c & H & _). discriminate.
Qed.

(** *** The accumulated array *)

Lemma elem_of_push {A} (arr : list A) (x p : A) :
  p ∈ push arr x <-> p ∈ arr \/ p = x.
Proof. unfold push. rewrite elem_of_app, list_elem_of_singleton. reflexivity. Qed.

Lemma elem_of_foldl_acc {A B} (f : list B -> A -> list B) (P : A -> B -> Prop) :
  (forall acc x p, p ∈ f acc x <-> p ∈ acc \/ P x p) ->
  forall l acc p, p ∈ foldl f acc l <-> p ∈ acc \/ exists x, x ∈ l /\ P x p.
Proof.
  intros Hf l. induction l as [|x l IH]; intros acc p; simpl.
  - split; [auto|]. intros [H|(x & H & _)]; [exact H|]. inversion H.
  - rewrite IH, Hf. split.
    + intros [[H|H]|(y & Hy & HP)]; [auto| |].
      * right. exists x. split; [left|exact H].
      * right. exists y. split; [right; exact Hy|exact HP].
    + intros [H|(y & Hy & HP)]; [auto|].
      apply elem_of_cons in Hy as [->|Hy]; [auto|].
      right. exists y. auto.
Qed.

Lemma elem_of_forEach {A B} (f : list B -> A -> list B) (P : A -> B -> Prop) :
  (forall acc x p, p ∈ f acc x <-> p ∈ acc \/ P x p) ->
  forall xs acc p,
    p ∈ forEach xs f acc <-> p ∈ acc \/ exists l x, xs = Some l /\ x ∈ l /\ P x p.
Proof.
  intros Hf [l|] acc p; simpl.
  - rewrite (elem_of_foldl_acc f P Hf). split.
    + intros [H|(x & Hx & HP)]; [auto|]. right. exists l, x. auto.
    + intros [H|(l' & x & [= <-] & Hx & HP)]; [auto|]. right. exists x. auto.
  - split; [auto|]. intros [H|(l & x & H & _)]; [exact H|discriminate].
Qed.

Lemma elem_of_addRouteBounds (route : ProcessedRoute) acc p :
  p ∈ addRouteBounds acc route
  <-> p ∈ acc \/ ValidStopPoint route p \/ ValidFlowPoint route p.
Proof.
  unfold addRouteBounds.
  rewrite (elem_of_forEach _
             (fun variant q => exists coords c,
                  flowCoordinates variant = Some coords /\ Some c ∈ coords /\
                  q = (lat c, lon c) /\ usable (lat c) (lon c))).
  - rewrite (elem_of_forEach _
               (fun s q => q = (stopLat s, stopLon s) /\
                           usable (stopLat s) (stopLon s))).
    + unfold ValidStopPoint, ValidFlowPoint. split.
      * intros [[H|(l & x & H1 & H2 & H3)]|(l & x & H1 & H2 & cs & c & H3)];
          [auto| |].
        -- right. left. exists l, x. tauto.
        -- right. right. exists l, x, cs, c. tauto.
      * intros [H|[(l & x & H1 & H2 & H3)|(l & x & cs & c & H1 & H2 & H3)]];
          [auto| |].
        -- left. right. exists l, x. tauto.
        -- right. exists l, x. split; [tauto|]. split; [tauto|].
           exists cs, c. tauto.
    + intros acc' s q. cbv zeta.
      destruct (boundsStopValid (stopLat s) (stopLon s)) eqn:E.
      * apply boundsStopValid_usable in E. rewrite elem_of_push. intuition.
      * split; [auto|]. intros [H|[_ H]]; [exact H|].
        apply boundsStopValid_usable in H. congruence.
  - intros acc' variant q.
    rewrite (elem_of_forEach _
               (fun coord q => exists c, coord = Some c /\
                                q = (lat c, lon c) /\ usable (lat c) (lon c))).
    + split.
      * intros [H|(l & x & H1 & H2 & c & -> & H3)]; [auto|].
        right. exists l, c. tauto.
      * intros [H|(l & c & H1 & H2 & H3)]; [auto|].
        right. exists l, (Some c). split; [tauto|]. split; [tauto|].
        exists c. tauto.
    + intros acc'' coord q'. destruct (flowValid coord) eqn:E.
      * apply flowValid_usable in E as (c & -> & Hu). rewrite elem_of_push.
        split.
        -- intros [H|H]; [auto|]. right. exists c. auto.
        -- intros [H|(c' & [= <-] & H & _)]; auto.
      * split; [auto|]. intros [H|(c & -> & _ & Hu)]; [exact H|].
        assert (F : flowValid (Some c) = true)
          by (apply flowValid_usable; exists c; auto).
        congruence.
Qed.

Lemma elem_of_collectBounds (rs : list ProcessedRoute) p :
  p ∈ collectBounds rs <-> ValidPoint rs p.
Proof.
  unfold collectBounds, ValidPoint.
  rewrite (elem_of_foldl_acc addRouteBounds
             (fun route q => ValidStopPoint route q \/ ValidFlowPoint route q)).
  - split; [intros [H|H]; [inversion H|exact H]|auto].
  - intros acc route q. apply elem_of_addRouteBounds.
Qed.

Lemma ValidPoint_nonNaN rs p : ValidPoint rs p -> nonNaN p.
Proof.
  intros (route & _ & [(ss & s & _ & _ & -> & Hu)|(vs & v & cs & c & _ & _ & _ & _ & -> & Hu)]);
    unfold nonNaN, usable in *; simpl; tauto.
Qed.

(** *** The fitted region *)

Lemma latLngBounds_snoc pts p :
  Leaflet.latLngBounds (pts ++ [p]) =
  match Leaflet.latLngBounds pts, Leaflet.latLng p with
  | Some b, Some q => Some (Leaflet.extend b q)
  | _, _ => None
  end.
Proof. unfold Leaflet.latLngBounds. rewrite foldl_app. reflexivity. Qed.

Lemma latLng_nonNaN p :
  nonNaN p -> Leaflet.latLng p = Some {| Leaflet.lat := p.1; Leaflet.lng := p.2 |}.
Proof. intros [H1 H2]. unfold Leaflet.latLng. rewrite H1, H2. reflexivity. Qed.

Lemma latLngBounds_spec (pts : list (JS.number * JS.number)) :
  Forall nonNaN pts -> pts <> [] ->
  exists sw ne,
    Leaflet.latLngBounds pts =
      Some {| Leaflet.southWest := Some sw; Leaflet.northEast := Some ne |} /\
    nonNaN (Leaflet.lat sw, Leaflet.lng sw) /\
    nonNaN (Leaflet.lat ne, Leaflet.lng ne) /\
    (forall p, p ∈ pts -> within sw ne p) /\
    attained sw ne pts.
Proof.
  induction pts as [|p pts IH] using rev_ind; [congruence|].
  intros Hall _. rewrite Forall_app in Hall. destruct Hall as [Hpts Hp].
  apply Forall_inv in Hp. pose proof Hp as [Hp1 Hp2].
  rewrite latLngBounds_snoc, (latLng_nonNaN p Hp).
  destruct pts as [|p0 pts'].
  - simpl. eexists _, _. split; [reflexivity|]. simpl.
    split; [exact Hp|]. split; [exact Hp|]. split.
    + intros q Hq. apply list_elem_of_singleton in Hq as ->.
      unfold within, JS.le; simpl. auto using SFleb_refl.
    + unfold attained; simpl.
      repeat split; exists p; (split; [apply list_elem_of_singleton|]); reflexivity.
  - assert (Hne : p0 :: pts' <> []) by discriminate.
    revert IH Hpts Hne. generalize (p0 :: pts'). intros l IH Hpts Hne.
    destruct (IH Hpts Hne)
      as (sw & ne & -> & [Hsw1 Hsw2] & [Hne1 Hne2] & Hin & Hatt).
    simpl in Hsw1, Hsw2, Hne1, Hne2.
    unfold Leaflet.extend; simpl Leaflet.southWest; simpl Leaflet.northEast;
      cbv iota; simpl Leaflet.lat; simpl Leaflet.lng.
    destruct (Math_min_spec p.1 (Leaflet.lat sw) Hp1 Hsw1) as (A1 & A2 & A3 & A4).
    destruct (Math_min_spec p.2 (Leaflet.lng sw) Hp2 Hsw2) as (B1 & B2 & B3 & B4).
    destruct (Math_max_spec p.1 (Leaflet.lat ne) Hp1 Hne1) as (C1 & C2 & C3 & C4).
    destruct (Math_max_spec p.2 (Leaflet.lng ne) Hp2 Hne2) as (D1 & D2 & D3 & D4).
    eexists _, _. split; [reflexivity|]. simpl.
    split; [split; assumption|]. split; [split; assumption|]. split.
    + intros q Hq. apply elem_of_app in Hq as [Hq|Hq].
      * destruct (Hin q Hq) as (W1 & W2 & W3 & W4).
        unfold within, JS.le in *; simpl.
        repeat split; eauto using SFleb_trans.
      * apply list_elem_of_singleton in Hq as ->.
        unfold within, JS.le; simpl. auto.
    + destruct Hatt as ((a & Ha & Ea) & (b & Hb & Eb) & (c & Hc & Ec) & (d & Hd & Ed)).
      unfold attained; simpl. repeat split.
      * destruct A4 as [->| ->];
          [exists p; split; [apply elem_of_app; right; apply list_elem_of_singleton; reflexivity|reflexivity]
          |exists a; split; [apply elem_of_app; left; assumption|exact Ea]].
      * destruct B4 as [->| ->];
          [exists p; split; [apply elem_of_app; right; apply list_elem_of_singleton; reflexivity|reflexivity]
          |exists b; split; [apply elem_of_app; left; assumption|exact Eb]].
      * destruct C4 as [->| ->];
          [exists p; split; [apply elem_of_app; right; apply list_elem_of_singleton; reflexivity|reflexivity]
          |exists c; split; [apply elem_of_app; left; assumption|exact Ec]].
      * destruct D4 as [->| ->];
          [exists p; split; [apply elem_of_app; right; apply list_elem_of_singleton; reflexivity|reflexivity]
          |exists d; split; [apply elem_of_app; left; assumption|exact Ed]].
Qed.

(** The effect, by cases on the accumulated array. *)
Lemma MapUpdater_effect_cases (rs : list ProcessedRoute) :
  (collectBounds rs = [] /\ MapUpdater_effect rs = Some []) \/
  (exists sw ne,
      MapUpdater_effect rs =
        Some [FitBounds {| Leaflet.southWest := Some sw;
                           Leaflet.northEast := Some ne |} (50, 50)%Z] /\
      (forall p, ValidPoint rs p -> within sw ne p) /\
      attained sw ne (collectBounds rs) /\
      collectBounds rs <> []).
Proof.
  unfold MapUpdater_effect.
  destruct rs as [|r rs']; [left; split; reflexivity|].
  change (0 <? length (r :: rs'))%nat with true. cbv iota zeta.
  set (rs := r :: rs'). clearbody rs.
  destruct (collectBounds rs) as [|p pts] eqn:E; [left; split; reflexivity|].
  right. change (0 <? length (p :: pts))%nat with true. cbv iota.
  destruct (latLngBounds_spec (p :: pts)) as (sw & ne & -> & _ & _ & Hin & Hatt).
  - apply Forall_forall. intros q Hq. apply (ValidPoint_nonNaN rs).
    apply elem_of_collectBounds. rewrite E. exact Hq.
  - discriminate.
  - exists sw, ne. split; [reflexivity|]. split; [|split; [exact Hatt|discriminate]].
    intros q Hq. apply Hin. rewrite <- E. apply elem_of_collectBounds. exact Hq.
Qed.

(** Between finite canonical numbers, lying in the rectangle is lying
    between the corner values. *)
Lemma within_values (sw ne : Leaflet.LatLng) (p : JS.number * JS.number) :
  plain (Leaflet.lat sw) -> plain (Leaflet.lng sw) ->
  plain (Leaflet.lat ne) -> plain (Leaflet.lng ne) ->
  plain p.1 -> plain p.2 ->
  within sw ne p ->
  (value (Leaflet.lat sw) <= value p.1)%Q /\
  (value p.1 <= value (Leaflet.lat ne))%Q /\
  (value (Leaflet.lng sw) <= value p.2)%Q /\
  (value p.2 <= value (Leaflet.lng ne))%Q.
Proof.
  intros [F1 W1] [F2 W2] [F3 W3] [F4 W4] [F5 W5] [F6 W6] (H1 & H2 & H3 & H4).
  unfold JS.le in *.
  repeat split; apply SFleb_value; assumption.
Qed.

Lemma attained_plain (sw ne : Leaflet.LatLng) (pts : list (JS.number * JS.number)) :
  attained sw ne pts ->
  (forall q, q ∈ pts -> plain q.1 /\ plain q.2) ->
  plain (Leaflet.lat sw) /\ plain (Leaflet.lng sw) /\
  plain (Leaflet.lat ne) /\ plain (Leaflet.lng ne).
Proof.
  intros ((a & Ha & ->) & (b & Hb & ->) & (c & Hc & ->) & (d & Hd & ->)) H.
  repeat split; apply H; assumption.
Qed.

(** *** Renders *)





(** *** Selection *)

Lemma filter_sublist {A} (f : A -> bool) (l : list A) :
  List.filter f l `sublist_of` l.
Proof.
  induction l as [|x l IH]; simpl; [constructor|].
  destruct (f x); [apply sublist_skip|apply sublist_cons]; exact IH.
Qed.

Lemma filter_all {A} (f : A -> bool) (l : list A) :
  Forall (fun x => f x = true) l -> List.filter f l = l.
Proof.
  induction 1 as [|x l Hx _ IH]; simpl; [reflexivity|]. rewrite Hx, IH. reflexivity.
Qed.

Lemma elem_of_filter_bool {A} (f : A -> bool) (l : list A) (x : A) :
  x ∈ List.filter f l <-> x ∈ l /\ f x = true.
Proof. rewrite !list_elem_of_In. apply filter_In. Qed.

Lemma existsb_elem_of {A} (f : A -> bool) (l : list A) :
  existsb f l = true <-> exists x, x ∈ l /\ f x = true.
Proof.
  rewrite existsb_exists. split; intros (x & H1 & H2); exists x;
    (split; [apply list_elem_of_In; exact H1|exact H2]).
Qed.

Lemma hasValidFlow_iff (route : ProcessedRoute) :
  hasValidFlow route = true <-> HasValidGeometry route.
Proof.
  unfold hasValidFlow, HasValidGeometry, ValidFlowPoint.
  destruct (routes route) as [vs|].
  - rewrite existsb_elem_of. split.
    + intros (v & Hv & H). destruct (flowCoordinates v) as [cs|] eqn:E; [|discriminate].
      apply andb_true_iff in H as [_ H]. apply existsb_elem_of in H as (c & Hc & Hval).
      apply flowValid_usable in Hval as (c' & -> & Hu).
      exists (lat c', lon c'), vs, v, cs, c'. auto 10.
    + intros (p & vs' & v & cs & c & [= <-] & Hv & E & Hc & _ & Hu).
      exists v. split; [exact Hv|]. rewrite E. apply andb_true_iff. split.
      * destruct cs; [inversion Hc|reflexivity].
      * apply existsb_elem_of. exists (Some c). split; [exact Hc|].
        apply flowValid_usable. exists c. auto.
  - split; [discriminate|]. intros (p & vs & v & cs & c & H & _). discriminate.
Qed.

(** *** Overlays *)

Lemma length_omap_le {A B} (f : A -> option B) (l : list A) :
  length (omap f l) <= length l.
Proof.
  induction l as [|x l IH]; simpl; [lia|].
  destruct (f x); simpl; [apply le_n_S|apply le_S]; exact IH.
Qed.

Lemma elem_of_drawn_imap {A B} (f : nat -> A -> option B) (l : list A) (y : B) :
  y ∈ drawn (Some (imap f l)) <-> exists i x, l !! i = Some x /\ f i x = Some y.
Proof.
  unfold drawn. simpl. rewrite list_elem_of_omap. split.
  - intros (o & Ho & E). apply elem_of_lookup_imap in Ho as (i & x & -> & Hx).
    exists i, x. auto.
  - intros (i & x & Hx & E). exists (f i x). split; [|exact E].
    apply elem_of_lookup_imap. exists i, x. auto.
Qed.

(** The coordinates of a polyline: the flow coordinates that pass the
    test, in order. *)
Lemma routeLine_Some selected route idx variant line :
  routeLine selected route idx variant = Some line ->
  exists coords,
    flowCoordinates variant = Some coords /\
    positions line =
      omap (fun coord => c ← coord; Some (lat c, lon c))
           (List.filter flowValid coords) /\
    positions line <> [] /\
    key line = (route_id route, idx) /\
    click line = route /\
    pathOptions line =
      {| color := if isSelected selected then "#3b82f6"
                  else getColorBySpeed (avgSpeed route);
         weight := if isSelected selected then 5 else 3;
         opacity := if isSelected selected then JS.lit "0.9" else JS.lit "0.6" |} /\
    popup line =
      {| popupNumber := number route;
         popupFirstPoint := firstPoint route;
         popupLastPoint := lastPoint route;
         popupSpeed := ToFixed (avgSpeed route) 1;
         popupLength := Plain (routLength route);
         popupStops := stopCount route;
         popupCarrier := carrier route |}.
Proof.
  unfold routeLine. destruct (flowCoordinates variant) as [coords|]; [|discriminate].
  destruct (length coords =? 0)%nat; [discriminate|].
  destruct (length (omap _ (List.filter flowValid coords)) =? 0)%nat eqn:E;
    [discriminate|].
  intros [= <-]. exists coords. simpl. repeat split.
  intros C. rewrite C in E. discriminate.
Qed.

Lemma omap_valid_nil (coords : list (option FlowCoordinate)) :
  omap (fun coord => c ← coord; Some (lat c, lon c)) (List.filter flowValid coords) = []
  <-> forall c, c ∈ coords -> flowValid c = false.
Proof.
  induction coords as [|c coords IH]; simpl.
  - split; [intros _ c H; inversion H|reflexivity].
  - destruct (flowValid c) eqn:E.
    + destruct c as [c|]; [|discriminate]. simpl. split; [discriminate|].
      intros H. specialize (H (Some c) ltac:(left)). congruence.
    + rewrite IH. split.
      * intros H c' Hc'. apply elem_of_cons in Hc' as [->|Hc']; auto.
      * intros H c' Hc'. apply H. right. exact Hc'.
Qed.

Lemma routeLine_None selected route idx variant :
  routeLine selected route idx variant = None
  <-> (forall coords c,
          flowCoordinates variant = Some coords -> c ∈ coords ->
          flowValid c = false).
Proof.
  unfold routeLine. destruct (flowCoordinates variant) as [coords|].
  - destruct coords as [|c0 coords'].
    + simpl. split; [|reflexivity]. intros _ coords c [= <-] H. inversion H.
    + change (length (c0 :: coords') =? 0)%nat with false. cbv iota.
      generalize (c0 :: coords'). intros coords. cbv zeta.
      destruct (length (omap _ (List.filter flowValid coords)) =? 0)%nat eqn:E.
      * apply Nat.eqb_eq, length_zero_iff_nil in E.
        pose proof (proj1 (omap_valid_nil coords) E) as E'.
        split; [|reflexivity]. intros _ cs c [= <-]. apply E'.
      * split; [discriminate|]. intros H. exfalso.
        apply Nat.eqb_neq in E. apply E, length_zero_iff_nil.
        apply (proj2 (omap_valid_nil coords)).
        intros c. apply H. reflexivity.
  - split; [|reflexivity]. intros _ coords c H. discriminate.
Qed.

Lemma stopMarker_Some route ss idx s m :
  stops route = Some ss -> ss !! idx = Some s ->
  stopMarker route idx s = Some m ->
  startBadge (markerPopup m) = (idx =? 0)%nat /\
  endBadge (markerPopup m) = (idx =? length ss - 1)%nat /\
  hubBadge (markerPopup m) = hubFlag s /\
  position m = (stopLat s, stopLon s) /\
  usable (stopLat s) (stopLon s) /\
  bgColor m =
    (if hubBadge (markerPopup m) then "#ef4444"
     else if startBadge (markerPopup m) then "#10b981"
     else if endBadge (markerPopup m) then "#f59e0b"
     else "#3b82f6") /\
  markerSize m =
    (if hubBadge (markerPopup m) then 24
     else if startBadge (markerPopup m) then 20
     else if endBadge (markerPopup m) then 20
     else 16)%Z /\
  pulse m =
    hubBadge (markerPopup m) || startBadge (markerPopup m)
    || endBadge (markerPopup m).
Proof.
  intros Hss Hidx. unfold stopMarker.
  destruct (markerStopInvalid (stopLat s) (stopLon s)) eqn:E; [discriminate|].
  apply markerStopInvalid_usable in E. cbv zeta. rewrite Hss. simpl from_option.
  apply lookup_lt_Some in Hidx.
  assert (EL : (Z.of_nat idx =? JS.orZero (Z.of_nat (length ss)) - 1)%Z
               = (idx =? length ss - 1)%nat).
  { unfold JS.orZero.
    destruct (Z.of_nat (length ss) =? 0)%Z eqn:Z0; [apply Z.eqb_eq in Z0; lia|].
    destruct (idx =? length ss - 1)%nat eqn:N.
    - apply Nat.eqb_eq in N. apply Z.eqb_eq. lia.
    - apply Nat.eqb_neq in N. apply Z.eqb_neq. lia. }
  rewrite EL. intros [= <-]. simpl.
  repeat split; try exact E; try apply E;
    destruct (hubFlag s), (idx =? 0)%nat, (idx =? length ss - 1)%nat; reflexivity.
Qed.

(** *** The speed thresholds *)

Lemma color_cases (speed : JS.number) :
  is_finite speed = true -> well_formed speed = true ->
  ((37 <= value speed)%Q /\ getColorBySpeed speed = "#22c55e") \/
  ((73 # 2 <= value speed)%Q /\ (value speed < 37)%Q /\
   getColorBySpeed speed = "#eab308") \/
  ((value speed < 73 # 2)%Q /\ getColorBySpeed speed = "#ef4444").
Proof.
  intros Hf Hw. unfold getColorBySpeed.
  pose proof (ge_37 speed Hf Hw) as H37.
  pose proof (ge_36_5 speed Hf Hw) as H365.
  destruct (JS.ge speed (JS.lit "37")).
  - left. split; [apply H37; reflexivity | reflexivity].
  - right. assert (N37 : (value speed < 37)%Q).
    { apply Qnot_le_lt. intros C. apply H37 in C. discriminate. }
    destruct (JS.ge speed (JS.lit "36.5")).
    + left. split; [apply H365; reflexivity|]. split; [exact N37|reflexivity].
    + right. split; [|reflexivity].
      apply Qnot_le_lt. intros C. apply H365 in C. discriminate.
Qed.

(** *** The end-to-end scenario *)

(** Route R1: the polyline keeps the two valid points, and the region
    fitted runs from (40.40, 49.86) to (40.41, 49.87). *)
Example scenario_R1 :
  positions <$> drawn (routeLines None routeR1)
  = [[(JS.lit "40.40", JS.lit "49.86"); (JS.lit "40.41", JS.lit "49.87")]] /\
  MapUpdater_effect [routeR1]
  = Some [FitBounds
            {| Leaflet.southWest :=
                 Some {| Leaflet.lat := JS.lit "40.40";
                         Leaflet.lng := JS.lit "49.86" |};
               Leaflet.northEast :=
                 Some {| Leaflet.lat := JS.lit "40.41";
                         Leaflet.lng := JS.lit "49.87" |} |}
            (50, 50)%Z].
Proof. split; vm_compute; reflexivity. Qed.

(** ** The claims *)

(** C1, as stated, fails: a stop whose latitude text is [Infinity] passes
    the stop test of [MapUpdater] and the test of the marker callback, and
    a flow coordinate with an infinite latitude passes the flow test,
    although the latitude is not a finite number. *)
Lemma C1_counterexample :
  boundsStopValid (stopLat stopFar) (stopLon stopFar) = true /\
  markerStopInvalid (stopLat stopFar) (stopLon stopFar) = false /\
  flowValid (Some {| lat := JS.Infinity; lon := JS.lit "49.8671" |}) = true /\
  is_finite (stopLat stopFar) = false.
Proof. vm_compute. repeat split. Qed.

(** C1, amended: each of the three coordinate tests accepts a pair if and
    only if neither component is [NaN] and neither is a zero.  Hence a
    pair of finite non-zero numbers is accepted, a [NaN] (the result of a
    failed parse) or a zero on either axis is rejected, and a missing or
    empty coordinate text is read as zero. *)
Theorem C1_coordinate_validation :
  (forall lat lon, boundsStopValid lat lon = true <-> usable lat lon) /\
  (forall lat lon, markerStopInvalid lat lon = false <-> usable lat lon) /\
  (forall coord,
      flowValid coord = true
      <-> exists c, coord = Some c /\ usable (lat c) (lon c)) /\
  (forall lat lon,
      usable lat lon
      <-> (is_finite lat = true \/ exists s, lat = S754_infinity s) /\
          (is_finite lon = true \/ exists s, lon = S754_infinity s) /\
          is_zero lat = false /\ is_zero lon = false) /\
  (forall s, stop s ≫= latitude = None \/ stop s ≫= latitude = Some ""
             -> stopLat s = JS.zero) /\
  (forall s, stop s ≫= longitude = None \/ stop s ≫= longitude = Some ""
             -> stopLon s = JS.zero) /\
  JS.parseFloat "n/a" = JS.NaN.
Proof.
  split; [exact boundsStopValid_usable|].
  split; [exact markerStopInvalid_usable|].
  split; [exact flowValid_usable|].
  split; [|split; [|split; [|reflexivity]]].
  - intros lat lon. unfold usable.
    destruct lat as [s|s| |s m e], lon as [s'|s'| |s' m' e']; simpl;
      split; intros H; repeat split; try tauto; eauto;
      try (destruct H as (H1 & H2 & H3 & H4); try discriminate;
           try (destruct H1 as [H1|[? H1]]; discriminate);
           try (destruct H2 as [H2|[? H2]]; discriminate)).
  - intros s [H|H]; unfold stopLat; rewrite H; reflexivity.
  - intros s [H|H]; unfold stopLon; rewrite H; reflexivity.
Qed.

Lemma C1_witness :
  stopLat {| stop_id := 5; stop := None; totalDistance := JS.zero |} = JS.zero.
Proof.
  refine (proj1 (proj2 (proj2 (proj2 (proj2 C1_coordinate_validation)))) _ _).
  left. reflexivity.
Defined.

(** C2, as stated, fails: with a route selected and an empty route list,
    the selected route is shown although it is not in the list. *)
Lemma C2_counterexample :
  displayRoutes (Some routeR1) [] = [routeR1] /\
  ~ routeR1 ∈ ([] : list ProcessedRoute).
Proof. split; [reflexivity|]. intros H. inversion H. Qed.

(** C2, amended: with no route selected, the routes shown are a
    subsequence of the supplied list and at most 30; with a route selected,
    exactly that route is shown, whether it is in the supplied list or
    not. *)
Theorem C2_rendered_routes :
  (forall rs,
      displayRoutes None rs `sublist_of` rs /\
      length (displayRoutes None rs) <= 30) /\
  (forall r rs,
      displayRoutes (Some r) rs = [r] /\
      length (displayRoutes (Some r) rs) = 1 /\
      (displayRoutes (Some r) rs ⊆ rs <-> r ∈ rs)).
Proof.
  split.
  - intros rs. unfold displayRoutes. split.
    + etransitivity; [apply sublist_take|apply filter_sublist].
    + rewrite length_take. lia.
  - intros r rs. simpl. split; [reflexivity|]. split; [reflexivity|].
    split.
    + intros H. apply H. left.
    + intros H x Hx. apply list_elem_of_singleton in Hx as ->. exact H.
Qed.

(** Three renders with the same props: the first shows the placeholder;
    each of the next two builds a new array for [MapUpdater], which is a
    change by reference, and sends one fit command. *)
Example rerender_with_same_props :
  (fun vc => fits vc.2) <$> renders (initial 0) [propsR1; propsR1; propsR1]
  = [0; 1; 1].
Proof. vm_compute. reflexivity. Qed.




(** C4: with a route selected the active set is that route alone, and stop
    markers are drawn only then; with none selected it is the first 30 of
    the supplied routes that have a path variant with a valid flow
    coordinate, in the supplied order; 50 such routes yield the first 30. *)
Theorem C4_active_set :
  (forall r rs, displayRoutes (Some r) rs = [r]) /\
  (forall route, drawn (stopMarkers None route) = []) /\
  (forall rs,
      exists eligible,
        displayRoutes None rs = take 30 eligible /\
        eligible `sublist_of` rs /\
        eligible = List.filter hasValidFlow rs /\
        (forall r, r ∈ eligible <-> r ∈ rs /\ HasValidGeometry r)) /\
  (forall rs,
      length rs = 50 -> Forall HasValidGeometry rs ->
      displayRoutes None rs = take 30 rs /\
      length (displayRoutes None rs) = 30).
Proof.
  split; [reflexivity|]. split; [reflexivity|]. split.
  - intros rs. exists (List.filter hasValidFlow rs).
    split; [reflexivity|]. split; [apply filter_sublist|]. split; [reflexivity|].
    intros r. rewrite elem_of_filter_bool, hasValidFlow_iff. reflexivity.
  - intros rs Hlen Hall. unfold displayRoutes.
    rewrite filter_all.
    + split; [reflexivity|]. rewrite length_take. lia.
    + eapply Forall_impl; [exact Hall|]. intros r. apply hasValidFlow_iff.
Qed.

Lemma C4_witness :
  displayRoutes None (replicate 50 routeR1) = take 30 (replicate 50 routeR1) /\
  length (displayRoutes None (replicate 50 routeR1)) = 30.
Proof.
  refine (proj2 (proj2 (proj2 C4_active_set)) (replicate 50 routeR1) _ _).
  - vm_compute. reflexivity.
  - apply Forall_replicate, hasValidFlow_iff. vm_compute. reflexivity.
Defined.

(** C5: when the active set has a valid point, the region fitted is built
    from the merged array of valid stop positions and valid flow
    coordinates of every path variant; every valid point lies between its
    corners, and each corner coordinate is that of some valid point.  When
    the valid points are finite numbers, their values lie between the
    values of the corners. *)
Theorem C5_bounds_bracket (rs : list ProcessedRoute) :
  (exists p, ValidPoint rs p) ->
  (forall p, p ∈ collectBounds rs <-> ValidPoint rs p) /\
  exists sw ne,
    MapUpdater_effect rs =
      Some [FitBounds {| Leaflet.southWest := Some sw;
                         Leaflet.northEast := Some ne |} (50, 50)%Z] /\
    (forall p, ValidPoint rs p -> within sw ne p) /\
    attained sw ne (collectBounds rs) /\
    ((forall q, ValidPoint rs q -> plain q.1 /\ plain q.2) ->
     forall p, ValidPoint rs p ->
       (value (Leaflet.lat sw) <= value p.1)%Q /\
       (value p.1 <= value (Leaflet.lat ne))%Q /\
       (value (Leaflet.lng sw) <= value p.2)%Q /\
       (value p.2 <= value (Leaflet.lng ne))%Q).
Proof.
  intros (p & Hp). split; [intros q; apply elem_of_collectBounds|].
  destruct (MapUpdater_effect_cases rs) as [[E _]|(sw & ne & E & Hin & Hatt & _)].
  - apply elem_of_collectBounds in Hp. rewrite E in Hp. inversion Hp.
  - exists sw, ne. split; [exact E|]. split; [exact Hin|]. split; [exact Hatt|].
    intros Hplain q Hq.
    destruct (attained_plain sw ne (collectBounds rs) Hatt) as (P1 & P2 & P3 & P4).
    { intros q' Hq'. apply Hplain, elem_of_collectBounds, Hq'. }
    destruct (Hplain q Hq) as [Q1 Q2].
    apply within_values; auto.
Qed.

Lemma C5_witness :
  exists sw ne,
    MapUpdater_effect [routeR1] =
      Some [FitBounds {| Leaflet.southWest := Some sw;
                         Leaflet.northEast := Some ne |} (50, 50)%Z] /\
    (forall p, ValidPoint [routeR1] p -> within sw ne p).
Proof.
  assert (Hv : exists p, ValidPoint [routeR1] p).
  { exists (JS.lit "40.40", JS.lit "49.86").
    apply elem_of_collectBounds. vm_compute. left. }
  destruct (proj2 (C5_bounds_bracket [routeR1] Hv)) as (sw & ne & E & Hin & _).
  exists sw, ne. split; assumption.
Defined.

(** C6: for a finite speed, [getColorBySpeed] returns the colour of the
    tier the specification assigns to the speed's value: Fast iff the value
    is at least 37, Medium iff it is at least 36.5 and below 37, Slow iff
    it is below 36.5; 37.0 is Fast, 36.5 Medium, 36.4999 Slow, 0 Slow. *)
Theorem C6_performance_classifier :
  (forall speed : JS.number,
      is_finite speed = true -> well_formed speed = true ->
      getColorBySpeed speed = tierColor (spec_classify (value speed)) /\
      (getColorBySpeed speed = tierColor Fast <-> (37 <= value speed)%Q) /\
      (getColorBySpeed speed = tierColor Medium
       <-> (73 # 2 <= value speed)%Q /\ (value speed < 37)%Q) /\
      (getColorBySpeed speed = tierColor Slow <-> (value speed < 73 # 2)%Q)) /\
  getColorBySpeed (JS.lit "37.0") = tierColor Fast /\
  getColorBySpeed (JS.lit "36.5") = tierColor Medium /\
  getColorBySpeed (JS.lit "36.4999") = tierColor Slow /\
  getColorBySpeed (JS.lit "0") = tierColor Slow.
Proof.
  split; [|repeat split; vm_compute; reflexivity].
  intros speed Hf Hw.
  destruct (color_cases speed Hf Hw) as [[Hv Hc]|[(Hv1 & Hv2 & Hc)|[Hv Hc]]];
    rewrite Hc; unfold spec_classify.
  - assert (E : Qle_bool 37 (value speed) = true) by (apply Qle_bool_iff; exact Hv).
    rewrite E. simpl. repeat split; intros; try discriminate; try lra.
  - assert (E : Qle_bool 37 (value speed) = false).
    { destruct (Qle_bool 37 (value speed)) eqn:B; [|reflexivity].
      apply Qle_bool_iff in B. lra. }
    assert (E' : Qle_bool (73 # 2) (value speed) = true) by (apply Qle_bool_iff; exact Hv1).
    rewrite E, E'. simpl. repeat split; intros; try discriminate; try lra.
  - assert (E : Qle_bool 37 (value speed) = false).
    { destruct (Qle_bool 37 (value speed)) eqn:B; [|reflexivity].
      apply Qle_bool_iff in B. lra. }
    assert (E' : Qle_bool (73 # 2) (value speed) = false).
    { destruct (Qle_bool (73 # 2) (value speed)) eqn:B; [|reflexivity].
      apply Qle_bool_iff in B. lra. }
    rewrite E, E'. simpl. repeat split; intros; try discriminate; try lra.
Qed.

Lemma C6_witness :
  getColorBySpeed (JS.lit "36.75") = tierColor (spec_classify (value (JS.lit "36.75"))).
Proof.
  refine (proj1 (proj1 C6_performance_classifier (JS.lit "36.75") _ _));
    vm_compute; reflexivity.
Defined.

(** C7: a path variant whose coordinate list is missing, empty or without
    a valid coordinate yields no polyline; a polyline that is drawn has at
    least one position; a route yields at most one polyline per variant
    and at most one marker per stop; and the effect of [MapUpdater] never
    raises. *)
Theorem C7_empty_geometry :
  (forall selected route idx variant,
      routeLine selected route idx variant = None
      <-> (forall coords c,
              flowCoordinates variant = Some coords -> c ∈ coords ->
              flowValid c = false)) /\
  (forall selected route line,
      line ∈ drawn (routeLines selected route) -> positions line <> []) /\
  (forall selected route,
      length (drawn (routeLines selected route))
      <= length (default [] (routes route))) /\
  (forall selected route,
      length (drawn (stopMarkers selected route))
      <= length (default [] (stops route))) /\
  (forall rs, MapUpdater_effect rs <> None).
Proof.
  split; [exact routeLine_None|]. split; [|split; [|split]].
  - intros selected route line. unfold routeLines.
    destruct (routes route) as [vs|]; simpl; [|intros H; inversion H].
    intros H. apply elem_of_drawn_imap in H as (i & v & _ & H).
    apply routeLine_Some in H as (coords & _ & _ & H & _). exact H.
  - intros selected route. unfold routeLines.
    destruct (routes route) as [vs|]; simpl; [|lia].
    etransitivity; [apply length_omap_le|]. rewrite length_imap. reflexivity.
  - intros selected route. unfold stopMarkers.
    destruct selected; [|simpl; lia].
    destruct (stops route) as [ss|]; simpl; [|lia].
    etransitivity; [apply length_omap_le|]. rewrite length_imap. reflexivity.
  - intros rs.
    destruct (MapUpdater_effect_cases rs) as [[_ E]|(sw & ne & E & _)];
      rewrite E; discriminate.
Qed.

Lemma C7_witness :
  routeLine None routeR1 0 {| flowCoordinates := Some [flowPoint "0" "0"; None] |}
  = None.
Proof.
  refine (proj2 (proj1 C7_empty_geometry None routeR1 0 _) _).
  intros coords c [= <-] H.
  apply elem_of_cons in H as [->|H]; [vm_compute; reflexivity|].
  apply list_elem_of_singleton in H as ->. reflexivity.
Defined.

(** C8: the marker of the stop at index [idx] carries the start badge iff
    [idx = 0], the end badge iff [idx] is the last index, the hub badge
    iff the stop's location has the hub flag; colour and size follow the
    precedence hub, start, end, regular; the stop of a single-stop route
    is both start and end; stops A, B, C with B a hub yield start, hub,
    end. *)
Theorem C8_stop_roles :
  (forall route ss idx s m,
      stops route = Some ss -> ss !! idx = Some s ->
      stopMarker route idx s = Some m ->
      (startBadge (markerPopup m) = true <-> idx = 0) /\
      (endBadge (markerPopup m) = true <-> idx = length ss - 1) /\
      (hubBadge (markerPopup m) = true <-> hubFlag s = true) /\
      bgColor m =
        (if hubBadge (markerPopup m) then "#ef4444"
         else if startBadge (markerPopup m) then "#10b981"
         else if endBadge (markerPopup m) then "#f59e0b"
         else "#3b82f6") /\
      markerSize m =
        (if hubBadge (markerPopup m) then 24
         else if startBadge (markerPopup m) then 20
         else if endBadge (markerPopup m) then 20
         else 16)%Z /\
      (length ss = 1 ->
       startBadge (markerPopup m) = true /\ endBadge (markerPopup m) = true)) /\
  (fun m => (startBadge (markerPopup m), endBadge (markerPopup m),
             hubBadge (markerPopup m), bgColor m, markerSize m))
    <$> drawn (stopMarkers (Some routeR1) routeR1)
  = [(true, false, false, "#10b981", 20%Z);
     (false, false, true, "#ef4444", 24%Z);
     (false, true, false, "#f59e0b", 20%Z)].
Proof.
  split; [|vm_compute; reflexivity].
  intros route ss idx s m Hss Hidx Hm.
  destruct (stopMarker_Some route ss idx s m Hss Hidx Hm)
    as (H1 & H2 & H3 & _ & _ & H4 & H5 & _).
  rewrite H4, H5, H1, H2, H3.
  split; [apply Nat.eqb_eq|]. split; [apply Nat.eqb_eq|].
  split; [reflexivity|]. split; [reflexivity|]. split; [reflexivity|].
  intros Hlen. apply lookup_lt_Some in Hidx.
  split; apply Nat.eqb_eq; lia.
Qed.

Lemma C8_witness :
  exists m,
    stopMarker routeR1 0 stopA = Some m /\
    (startBadge (markerPopup m) = true <-> 0 = 0) /\
    (endBadge (markerPopup m) = true <-> 0 = length [stopA; stopB; stopC] - 1).
Proof.
  eexists. split; [vm_compute; reflexivity|].
  refine (let H := proj1 C8_stop_roles routeR1 [stopA; stopB; stopC] 0 stopA _ _ _ _
          in conj (proj1 H) (proj1 (proj2 H)));
    vm_compute; reflexivity.
Defined.

(** C9: two renders of the mounted component with the same props show the
    same view, whatever the state kept between renders: the layers are a
    function of the active set and the selection alone.  Every polyline
    drawn for a route has the highlight colour, weight 5 and opacity 0.9
    when a route is selected, the colour of the route's speed, weight 3
    and opacity 0.6 otherwise, and the popup fields of the route. *)
Theorem C9_overlay_determinism (st1 st2 : State) (p : Props) :
  mounted st1 = true -> mounted st2 = true ->
  (RouteMap st1 p).1.2 = (RouteMap st2 p).1.2 /\
  (RouteMap st1 p).1.2
  = MapView (routeLayer (selectedRoute p)
               <$> displayRoutes (selectedRoute p) (routesProp p))
            (isSelected (selectedRoute p)) /\
  (forall route line,
      line ∈ drawn (routeLines (selectedRoute p) route) ->
      pathOptions line =
        {| color := if isSelected (selectedRoute p) then "#3b82f6"
                    else getColorBySpeed (avgSpeed route);
           weight := if isSelected (selectedRoute p) then 5 else 3;
           opacity := if isSelected (selectedRoute p)
                      then JS.lit "0.9" else JS.lit "0.6" |} /\
      popup line =
        {| popupNumber := number route;
           popupFirstPoint := firstPoint route;
           popupLastPoint := lastPoint route;
           popupSpeed := ToFixed (avgSpeed route) 1;
           popupLength := Plain (routLength route);
           popupStops := stopCount route;
           popupCarrier := carrier route |} /\
      click line = route).
Proof.
  intros H1 H2.
  assert (V : forall st, mounted st = true ->
                (RouteMap st p).1.2
                = MapView (routeLayer (selectedRoute p)
                             <$> displayRoutes (selectedRoute p) (routesProp p))
                          (isSelected (selectedRoute p))).
  { intros st Hm. unfold RouteMap, allocDisplayRoutes. rewrite Hm. simpl negb.
    cbv iota. destruct (selectedRoute p);
      match goal with
      | |- context [MapUpdater ?a ?b ?c] => destruct (MapUpdater a b c)
      end; reflexivity. }
  split; [rewrite (V st1 H1), (V st2 H2); reflexivity|].
  split; [exact (V st1 H1)|].
  intros route line. unfold routeLines.
  destruct (routes route) as [vs|]; simpl; [|intros H; inversion H].
  intros H. apply elem_of_drawn_imap in H as (i & v & _ & H).
  apply routeLine_Some in H as (coords & _ & _ & _ & _ & Hc & Ho & Hp). auto.
Qed.

Lemma C9_witness :
  (RouteMap {| mounted := true; nextRef := 0; mapRef := 0; updaterDeps := None |}
            propsR1).1.2
  = (RouteMap {| mounted := true; nextRef := 7; mapRef := 0;
                 updaterDeps := Some {| dep_routes := 6; dep_map := 0 |} |}
              propsR1).1.2.
Proof.
  refine (proj1 (C9_overlay_determinism _ _ propsR1 _ _)); reflexivity.
Defined.

(** C10: on [NaN], [getColorBySpeed] returns the Slow colour, both
    threshold comparisons being false. *)
Theorem C10_nan_speed_is_slow :
  getColorBySpeed JS.NaN = "#ef4444" /\
  JS.ge JS.NaN (JS.lit "37") = false /\
  JS.ge JS.NaN (JS.lit "36.5") = false.
Proof. repeat split; vm_compute; reflexivity. Qed.

(** ** Further properties of the pipeline *)

(** *** The accumulated array, in closed form *)

Lemma foldl_push_omap {A B} (g : A -> option B) (f : list B -> A -> list B) :
  (forall acc x, f acc x = match g x with Some y => push acc y | None => acc end) ->
  forall l acc, foldl f acc l = acc ++ omap g l.
Proof.
  intros Hf l. induction l as [|x l IH]; intros acc; simpl.
  - rewrite app_nil_r. reflexivity.
  - rewrite IH, Hf. destruct (g x) as [y|]; [|reflexivity].
    unfold push. rewrite <- app_assoc. reflexivity.
Qed.

Lemma foldl_append_concat {A B} (g : A -> list B) (f : list B -> A -> list B) :
  (forall acc x, f acc x = acc ++ g x) ->
  forall l acc, foldl f acc l = acc ++ concat (g <$> l).
Proof.
  intros Hf l. induction l as [|x l IH]; intros acc; simpl.
  - rewrite app_nil_r. reflexivity.
  - rewrite IH, Hf, <- app_assoc. reflexivity.
Qed.

Lemma omap_filter_flow (coords : list (option FlowCoordinate)) :
  omap (fun coord => c ← coord; Some (lat c, lon c)) (List.filter flowValid coords)
  = omap (fun coord => if flowValid coord
                       then c ← coord; Some (lat c, lon c) else None) coords.
Proof.
  induction coords as [|c coords IH]; [reflexivity|].
  unfold omap in *. simpl.
  destruct (flowValid c) eqn:E; simpl; rewrite IH; reflexivity.
Qed.

Lemma forEach_stops (xs : option (list Stop)) (acc : list (JS.number * JS.number)) :
  forEach xs
    (fun bounds stop =>
       if boundsStopValid (stopLat stop) (stopLon stop)
       then push bounds (stopLat stop, stopLon stop) else bounds) acc
  = acc ++ omap stopPoint (default [] xs).
Proof.
  destruct xs as [ss|]; simpl; [|rewrite app_nil_r; reflexivity].
  apply foldl_push_omap. intros a s. unfold stopPoint.
  destruct (boundsStopValid (stopLat s) (stopLon s)); reflexivity.
Qed.

Lemma forEach_coords (v : PathVariant) (acc : list (JS.number * JS.number)) :
  forEach (flowCoordinates v)
    (fun bounds coord =>
       if flowValid coord then
         match coord with
         | Some c => push bounds (lat c, lon c)
         | None => bounds
         end
       else bounds) acc
  = acc ++ variantPoints v.
Proof.
  unfold variantPoints, forEach.
  destruct (flowCoordinates v) as [cs|]; [|rewrite app_nil_r; reflexivity].
  rewrite omap_filter_flow. apply foldl_push_omap.
  intros a coord. destruct (flowValid coord) eqn:E; [|reflexivity].
  destruct coord; [reflexivity|discriminate].
Qed.

Lemma addRouteBounds_app (acc : list (JS.number * JS.number)) (route : ProcessedRoute) :
  addRouteBounds acc route = acc ++ routePoints route.
Proof.
  unfold addRouteBounds, routePoints. cbv beta zeta.
  rewrite forEach_stops.
  destruct (routes route) as [vs|]; simpl.
  - rewrite (foldl_append_concat variantPoints); [|intros a v; apply forEach_coords].
    rewrite app_assoc. reflexivity.
  - rewrite app_nil_r. reflexivity.
Qed.

Lemma collectBounds_concat (rs : list ProcessedRoute) :
  collectBounds rs = concat (routePoints <$> rs).
Proof.
  unfold collectBounds.
  rewrite (foldl_append_concat routePoints); [reflexivity|].
  intros acc r. apply addRouteBounds_app.
Qed.

(** *** What is drawn, in closed form *)

Lemma omap_id_imap_fmap {A B C} (f : nat -> A -> option B) (g : B -> C)
    (h : A -> option C) (l : list A) :
  (forall i x, g <$> f i x = h x) ->
  g <$> omap id (imap f l) = omap h l.
Proof.
  revert f. induction l as [|x l IH]; intros f Hf; [reflexivity|].
  rewrite imap_cons. simpl. specialize (Hf 0 x) as H0.
  rewrite <- H0. destruct (f 0 x) as [y|]; simpl.
  - f_equal. apply IH. intros i x'. apply Hf.
  - apply IH. intros i x'. apply Hf.
Qed.

Lemma stopMarker_position route idx s :
  position <$> stopMarker route idx s = stopPoint s.
Proof.
  unfold stopMarker, stopPoint. cbv zeta.
  destruct (markerStopInvalid (stopLat s) (stopLon s)) eqn:E.
  - destruct (boundsStopValid (stopLat s) (stopLon s)) eqn:E'; [|reflexivity].
    apply boundsStopValid_usable, markerStopInvalid_usable in E'. congruence.
  - apply markerStopInvalid_usable, boundsStopValid_usable in E. rewrite E.
    reflexivity.
Qed.

Lemma marker_positions selected route :
  position <$> drawn (stopMarkers (Some selected) route)
  = omap stopPoint (default [] (stops route)).
Proof.
  unfold stopMarkers, drawn. destruct (stops route) as [ss|]; simpl; [|reflexivity].
  apply omap_id_imap_fmap. intros i s. apply stopMarker_position.
Qed.

Lemma routeLine_positions selected route idx v :
  match routeLine selected route idx v with
  | Some line => positions line = variantPoints v /\ variantPoints v <> []
  | None => variantPoints v = []
  end.
Proof.
  destruct (routeLine selected route idx v) as [line|] eqn:E.
  - apply routeLine_Some in E as (coords & Hc & Hp & Hne & _).
    unfold variantPoints. rewrite Hc, <- Hp. auto.
  - unfold variantPoints. destruct (flowCoordinates v) as [coords|] eqn:Hc;
      [|reflexivity].
    apply omap_valid_nil. intros c Hin.
    apply (proj1 (routeLine_None selected route idx v) E coords c Hc Hin).
Qed.

Lemma concat_positions_imap selected route (vs : list PathVariant)
    (f : nat -> nat) :
  concat (positions <$> omap id (imap (fun i => routeLine selected route (f i)) vs))
  = concat (variantPoints <$> vs).
Proof.
  revert f. induction vs as [|v vs IH]; intros f; [reflexivity|].
  rewrite imap_cons. simpl.
  pose proof (routeLine_positions selected route (f 0) v) as H.
  destruct (routeLine selected route (f 0) v) as [line|]; simpl.
  - destruct H as [-> _]. f_equal. apply (IH (f ∘ S)).
  - rewrite H. simpl. apply (IH (f ∘ S)).
Qed.

Lemma line_positions selected route :
  concat (positions <$> drawn (routeLines selected route))
  = concat (variantPoints <$> default [] (routes route)).
Proof.
  unfold routeLines, drawn. destruct (routes route) as [vs|]; simpl; [|reflexivity].
  apply (concat_positions_imap selected route vs (fun i => i)).
Qed.

Lemma elem_of_concat {A} (ls : list (list A)) (x : A) :
  x ∈ concat ls <-> exists l, l ∈ ls /\ x ∈ l.
Proof.
  rewrite list_elem_of_In, in_concat. split; intros (l & H1 & H2); exists l;
    rewrite ?list_elem_of_In in *; auto.
Qed.

Lemma elem_of_routePoints_collect (rs : list ProcessedRoute) route q :
  route ∈ rs -> q ∈ routePoints route -> q ∈ collectBounds rs.
Proof.
  intros Hr Hq. rewrite collectBounds_concat. apply elem_of_concat.
  exists (routePoints route). split; [|exact Hq].
  apply list_elem_of_fmap. exists route. auto.
Qed.

Lemma drawnAt_routePoints selected route q :
  drawnAt selected route q -> q ∈ routePoints route.
Proof.
  unfold routePoints. intros [(line & Hl & Hq)|(m & Hm & ->)]; apply elem_of_app.
  - right. rewrite <- (line_positions selected route). apply elem_of_concat.
    exists (positions line). split; [|exact Hq].
    apply list_elem_of_fmap. exists line. auto.
  - left. destruct selected as [sel|]; [|inversion Hm].
    rewrite <- (marker_positions sel route).
    apply list_elem_of_fmap. exists m. auto.
Qed.

(** The array given to [L.latLngBounds] is, route by route, the positions
    of the markers a selection draws followed by the positions of the
    polylines: the three coordinate tests keep the same points. *)
Theorem bounds_are_drawn_positions (selected : ProcessedRoute)
    (rs : list ProcessedRoute) :
  collectBounds rs
  = concat ((fun route =>
               (position <$> drawn (stopMarkers (Some selected) route))
               ++ concat (positions <$> drawn (routeLines (Some selected) route)))
            <$> rs).
Proof.
  rewrite collectBounds_concat. f_equal. apply list_fmap_ext.
  intros i route _. unfold routePoints.
  rewrite marker_positions, line_positions. reflexivity.
Qed.

(** The accumulated array of a concatenation is the concatenation of the
    accumulated arrays: points are kept in order and never merged. *)
Theorem collectBounds_app (rs1 rs2 : list ProcessedRoute) :
  collectBounds (rs1 ++ rs2) = collectBounds rs1 ++ collectBounds rs2.
Proof. rewrite !collectBounds_concat, fmap_app, concat_app. reflexivity. Qed.

(** Whatever is drawn for a route of the active set lies in the region
    the map is fitted to, and a fit command is then sent. *)
Theorem drawn_within_fitted_region (rs : list ProcessedRoute)
    (selected : option ProcessedRoute) (route : ProcessedRoute)
    (q : JS.number * JS.number) :
  route ∈ rs -> drawnAt selected route q ->
  exists sw ne,
    MapUpdater_effect rs =
      Some [FitBounds {| Leaflet.southWest := Some sw;
                         Leaflet.northEast := Some ne |} (50, 50)%Z] /\
    within sw ne q.
Proof.
  intros Hr Hq.
  assert (Hin : q ∈ collectBounds rs)
    by (eapply elem_of_routePoints_collect; eauto using drawnAt_routePoints).
  destruct (MapUpdater_effect_cases rs) as [[E _]|(sw & ne & E & Hw & _)].
  - rewrite E in Hin. inversion Hin.
  - exists sw, ne. split; [exact E|]. apply Hw, elem_of_collectBounds, Hin.
Qed.

Lemma drawn_within_fitted_region_witness :
  exists sw ne,
    MapUpdater_effect [routeR1] =
      Some [FitBounds {| Leaflet.southWest := Some sw;
                         Leaflet.northEast := Some ne |} (50, 50)%Z] /\
    within sw ne (stopLat stopB, stopLon stopB).
Proof.
  refine (drawn_within_fitted_region [routeR1] (Some routeR1) routeR1 _ _ _).
  - left.
  - right. eexists. split.
    + apply elem_of_drawn_imap. exists 1, stopB.
      split; [reflexivity|vm_compute; reflexivity].
    + vm_compute. reflexivity.
Defined.

Lemma hasValidFlow_false_routeLine selected route idx v vs :
  hasValidFlow route = false -> routes route = Some vs -> v ∈ vs ->
  routeLine selected route idx v = None.
Proof.
  intros Hf Hvs Hv. apply routeLine_None. intros coords c Hc Hin.
  destruct (flowValid c) eqn:E; [|reflexivity].
  apply flowValid_usable in E as (c' & -> & Hu).
  assert (T : hasValidFlow route = true).
  { apply hasValidFlow_iff. exists (lat c', lon c'), vs, v, coords, c'. auto 10. }
  congruence.
Qed.

Lemma hasValidFlow_draws (selected : option ProcessedRoute)
    (route : ProcessedRoute) :
  hasValidFlow route = true <-> drawn (routeLines selected route) <> [].
Proof.
  split.
  - intros H. apply hasValidFlow_iff in H
      as (p & vs & v & cs & c & Hvs & Hv & Hcs & Hc & _ & Hu).
    apply list_elem_of_lookup in Hv as (i & Hi).
    destruct (routeLine selected route i v) as [line|] eqn:E.
    + intros C. assert (Hl : line ∈ drawn (routeLines selected route)).
      { unfold routeLines. rewrite Hvs. simpl. apply elem_of_drawn_imap. eauto. }
      rewrite C in Hl. inversion Hl.
    + exfalso. pose proof (proj1 (routeLine_None selected route i v) E cs (Some c) Hcs Hc) as F.
      assert (T : flowValid (Some c) = true)
        by (apply flowValid_usable; eauto).
      congruence.
  - intros H. destruct (hasValidFlow route) eqn:E; [reflexivity|]. exfalso.
    apply H. unfold routeLines. destruct (routes route) as [vs|] eqn:Hvs; [|reflexivity].
    change (drawn (Some (imap (routeLine selected route) vs)) = []).
    destruct (drawn (Some (imap (routeLine selected route) vs))) as [|line ls] eqn:D;
      [reflexivity|].
    assert (Hl : line ∈ drawn (Some (imap (routeLine selected route) vs)))
      by (rewrite D; left).
    apply elem_of_drawn_imap in Hl as (i & v & Hi & Hline).
    rewrite (hasValidFlow_false_routeLine selected route i v vs E Hvs) in Hline;
      [discriminate|]. eapply list_elem_of_lookup_2; eauto.
Qed.

(** The filter of [displayRoutes] keeps exactly the routes for which at
    least one polyline is drawn. *)
Theorem filter_keeps_routes_that_draw (selected : option ProcessedRoute)
    (route : ProcessedRoute) :
  hasValidFlow route = true <-> drawn (routeLines selected route) <> [].
Proof. apply hasValidFlow_draws. Qed.

(** With no route selected, the active set is not empty exactly when a
    supplied route has valid geometry; a fit command is sent exactly
    then. *)
Theorem unselected_fit_iff_nonempty (rs : list ProcessedRoute) :
  (displayRoutes None rs <> [] <-> exists r, r ∈ rs /\ HasValidGeometry r) /\
  (displayRoutes None rs <> [] ->
   exists b, MapUpdater_effect (displayRoutes None rs) = Some [FitBounds b (50, 50)%Z]) /\
  (displayRoutes None rs = [] ->
   MapUpdater_effect (displayRoutes None rs) = Some []).
Proof.
  assert (Hhead : forall r, r ∈ displayRoutes None rs -> r ∈ rs /\ HasValidGeometry r).
  { intros r Hr. unfold displayRoutes in Hr.
    apply subseteq_take in Hr.
    apply elem_of_filter_bool in Hr as [H1 H2]. split; [exact H1|].
    apply hasValidFlow_iff, H2. }
  split; [|split].
  - split.
    + intros H. destruct (displayRoutes None rs) as [|r l] eqn:E; [congruence|].
      exists r. apply Hhead. left.
    + intros (r & Hr & Hg) C. unfold displayRoutes in C.
      assert (Hf : r ∈ List.filter hasValidFlow rs)
        by (apply elem_of_filter_bool; split; [exact Hr|apply hasValidFlow_iff, Hg]).
      destruct (List.filter hasValidFlow rs); [inversion Hf|discriminate].
  - intros H. destruct (displayRoutes None rs) as [|r l] eqn:E; [congruence|].
    destruct (Hhead r ltac:(left)) as [_ (p & Hp)].
    assert (V : ValidPoint (r :: l) p) by (exists r; split; [left|right; exact Hp]).
    destruct (MapUpdater_effect_cases (r :: l)) as [[E' _]|(sw & ne & E' & _)].
    + apply elem_of_collectBounds in V. rewrite E' in V. inversion V.
    + eexists. exact E'.
  - intros ->. reflexivity.
Qed.

Lemma unselected_fit_iff_nonempty_witness :
  exists b,
    MapUpdater_effect (displayRoutes None [routeNoGeometry; routeR1])
    = Some [FitBounds b (50, 50)%Z].
Proof.
  refine (proj1 (proj2 (unselected_fit_iff_nonempty [routeNoGeometry; routeR1])) _).
  vm_compute. discriminate.
Defined.

Lemma SFleb_antisym (x y : JS.number) :
  SFleb x y = true -> SFleb y x = true -> is_zero x = false -> x = y.
Proof.
  unfold SFleb, SFcompare.
  destruct x as [sx|sx| |sx mx ex], y as [sy|sy| |sy my ey];
    try discriminate;
    repeat match goal with s : bool |- _ => destruct s end;
    try discriminate; try reflexivity;
    intros H1 H2 _; split_compare; simpl in *;
    try discriminate; subst; try reflexivity; try lia.
Qed.

Lemma ValidPoint_usable rs p : ValidPoint rs p -> usable p.1 p.2.
Proof.
  intros (route & _ & [(ss & s & _ & _ & -> & Hu)|(vs & v & cs & c & _ & _ & _ & _ & -> & Hu)]);
    exact Hu.
Qed.

Lemma usable_fst a b : usable a b -> JS.isNaN a = false /\ is_zero a = false.
Proof. unfold usable. tauto. Qed.

Lemma usable_snd a b : usable a b -> JS.isNaN b = false /\ is_zero b = false.
Proof. unfold usable. tauto. Qed.

(** The fit command depends only on the set of valid points: route lists
    with the same valid points, in any order and with any repetition, send
    the same command. *)
Theorem fitted_region_depends_on_points (rs rs' : list ProcessedRoute) :
  (forall p, ValidPoint rs p <-> ValidPoint rs' p) ->
  MapUpdater_effect rs = MapUpdater_effect rs'.
Proof.
  intros Hsame.
  destruct (MapUpdater_effect_cases rs) as [[E1 F1]|(sw & ne & F1 & W1 & A1 & N1)],
      (MapUpdater_effect_cases rs') as [[E2 F2]|(sw' & ne' & F2 & W2 & A2 & N2)].
  - congruence.
  - exfalso. destruct (collectBounds rs') as [|p l] eqn:E; [congruence|].
    assert (V : ValidPoint rs p)
      by (apply Hsame, elem_of_collectBounds; rewrite E; left).
    apply elem_of_collectBounds in V. rewrite E1 in V. inversion V.
  - exfalso. destruct (collectBounds rs) as [|p l] eqn:E; [congruence|].
    assert (V : ValidPoint rs' p)
      by (apply Hsame, elem_of_collectBounds; rewrite E; left).
    apply elem_of_collectBounds in V. rewrite E2 in V. inversion V.
  - rewrite F1, F2.
    destruct A1 as ((a1 & Ha1 & Ea1) & (b1 & Hb1 & Eb1) & (c1 & Hc1 & Ec1) & (d1 & Hd1 & Ed1)).
    destruct A2 as ((a2 & Ha2 & Ea2) & (b2 & Hb2 & Eb2) & (c2 & Hc2 & Ec2) & (d2 & Hd2 & Ed2)).
    apply elem_of_collectBounds in Ha1, Hb1, Hc1, Hd1, Ha2, Hb2, Hc2, Hd2.
    assert (L1 : Leaflet.lat sw = Leaflet.lat sw').
    { apply SFleb_antisym.
      - rewrite Ea2. apply (W1 a2), Hsame, Ha2.
      - rewrite Ea1. apply (W2 a1), Hsame, Ha1.
      - rewrite Ea1. apply (usable_fst _ _ (ValidPoint_usable _ _ Ha1)). }
    assert (L2 : Leaflet.lng sw = Leaflet.lng sw').
    { apply SFleb_antisym.
      - rewrite Eb2. apply (W1 b2), Hsame, Hb2.
      - rewrite Eb1. apply (W2 b1), Hsame, Hb1.
      - rewrite Eb1. apply (usable_snd _ _ (ValidPoint_usable _ _ Hb1)). }
    assert (L3 : Leaflet.lat ne' = Leaflet.lat ne).
    { apply SFleb_antisym.
      - rewrite Ec2. apply (W1 c2), Hsame, Hc2.
      - rewrite Ec1. apply (W2 c1), Hsame, Hc1.
      - rewrite Ec2. apply (usable_fst _ _ (ValidPoint_usable _ _ Hc2)). }
    assert (L4 : Leaflet.lng ne' = Leaflet.lng ne).
    { apply SFleb_antisym.
      - rewrite Ed2. apply (W1 d2), Hsame, Hd2.
      - rewrite Ed1. apply (W2 d1), Hsame, Hd1.
      - rewrite Ed2. apply (usable_snd _ _ (ValidPoint_usable _ _ Hd2)). }
    clear - L1 L2 L3 L4. destruct sw, sw', ne, ne'. simpl in *. subst. reflexivity.
Qed.

Lemma fitted_region_depends_on_points_witness :
  MapUpdater_effect [routeR1; routeR1] = MapUpdater_effect [routeR1].
Proof.
  apply fitted_region_depends_on_points. intros p. unfold ValidPoint. split.
  - intros (r & Hr & H). exists r. split; [|exact H].
    apply elem_of_cons in Hr as [->|Hr]; [left|exact Hr].
  - intros (r & Hr & H). exists r. split; [|exact H]. right. exact Hr.
Defined.

(** A fit command always has padding (50, 50) and two corners whose
    coordinates are neither [NaN] nor zero, the south-west one not above
    the north-east one on either axis. *)
Theorem fitted_region_corners (rs : list ProcessedRoute)
    (b : Leaflet.LatLngBounds) (padding : Z * Z) :
  MapUpdater_effect rs = Some [FitBounds b padding] ->
  padding = (50, 50)%Z /\
  exists sw ne,
    b = {| Leaflet.southWest := Some sw; Leaflet.northEast := Some ne |} /\
    usable (Leaflet.lat sw) (Leaflet.lng sw) /\
    usable (Leaflet.lat ne) (Leaflet.lng ne) /\
    JS.le (Leaflet.lat sw) (Leaflet.lat ne) = true /\
    JS.le (Leaflet.lng sw) (Leaflet.lng ne) = true.
Proof.
  intros H.
  destruct (MapUpdater_effect_cases rs) as [[_ F]|(sw & ne & F & W & A & _)];
    rewrite F in H; [discriminate|].
  injection H as <- <-. split; [reflexivity|]. exists sw, ne. split; [reflexivity|].
  destruct A as ((a & Ha & Ea) & (b & Hb & Eb) & (c & Hc & Ec) & (d & Hd & Ed)).
  apply elem_of_collectBounds in Ha, Hb, Hc, Hd.
  pose proof (usable_fst _ _ (ValidPoint_usable _ _ Ha)) as [A1 A2].
  pose proof (usable_snd _ _ (ValidPoint_usable _ _ Hb)) as [B1 B2].
  pose proof (usable_fst _ _ (ValidPoint_usable _ _ Hc)) as [C1 C2].
  pose proof (usable_snd _ _ (ValidPoint_usable _ _ Hd)) as [D1 D2].
  unfold usable. rewrite Ea, Eb, Ec, Ed.
  split; [tauto|]. split; [tauto|].
  destruct (W a Ha) as (_ & W2 & _). destruct (W b Hb) as (_ & _ & _ & W4).
  rewrite <- Ec, <- Ed. split; assumption.
Qed.

Lemma fitted_region_corners_witness :
  exists sw ne,
    usable (Leaflet.lat sw) (Leaflet.lng sw) /\
    JS.le (Leaflet.lat sw) (Leaflet.lat ne) = true.
Proof.
  assert (E : MapUpdater_effect [routeR1]
              = Some [FitBounds
                        {| Leaflet.southWest :=
                             Some {| Leaflet.lat := JS.lit "40.40";
                                     Leaflet.lng := JS.lit "49.86" |};
                           Leaflet.northEast :=
                             Some {| Leaflet.lat := JS.lit "40.41";
                                     Leaflet.lng := JS.lit "49.87" |} |}
                        (50, 50)%Z])
    by (vm_compute; reflexivity).
  destruct (proj2 (fitted_region_corners [routeR1] _ _ E))
    as (sw & ne & _ & H1 & _ & H2 & _).
  exists sw, ne. split; assumption.
Defined.

(** *** Elements built by an indexed [map] *)

Lemma omap_id_cons {B} (o : option B) (l : list (option B)) :
  omap id (o :: l)
  = match o with Some y => y :: omap id l | None => omap id l end.
Proof. reflexivity. Qed.

Lemma filter_drawn_imap_nil {A B} (P : B -> bool) (f : nat -> A -> option B)
    (l : list A) :
  (forall i x y, f i x = Some y -> P y = false) ->
  List.filter P (omap id (imap f l)) = [].
Proof.
  revert f. induction l as [|x l IH]; intros f Hf; [reflexivity|].
  rewrite imap_cons. simpl. destruct (f 0 x) as [y|] eqn:E; simpl.
  - rewrite (Hf 0 x y E). apply IH. intros i x' y'. apply Hf.
  - apply IH. intros i x' y'. apply Hf.
Qed.

Lemma filter_drawn_imap_one {A B} (P : B -> bool) (f : nat -> A -> option B)
    (l : list A) (k : nat) :
  (forall i x y, f i x = Some y -> P y = true -> i = k) ->
  length (List.filter P (omap id (imap f l))) <= 1.
Proof.
  revert f k. induction l as [|x l IH]; intros f k Hf; [simpl; lia|].
  rewrite imap_cons, omap_id_cons. destruct k as [|k].
  - assert (T : List.filter P (omap id (imap (f ∘ S) l)) = []).
    { apply filter_drawn_imap_nil. intros i x' y' E.
      destruct (P y') eqn:Py; [|reflexivity].
      specialize (Hf (S i) x' y' E Py). discriminate. }
    destruct (f 0 x) as [y|]; [|rewrite T; simpl; lia].
    cbn [List.filter]. destruct (P y); rewrite T; simpl; lia.
  - assert (IH' : length (List.filter P (omap id (imap (f ∘ S) l))) <= 1).
    { apply (IH (f ∘ S) k). intros i x' y' E Py.
      specialize (Hf (S i) x' y' E Py). lia. }
    destruct (f 0 x) as [y|] eqn:E; [|exact IH'].
    cbn [List.filter]. destruct (P y) eqn:Py; [|exact IH'].
    specialize (Hf 0 x y E Py). discriminate.
Qed.

Lemma fmap_drawn_imap_sublist {A B C} (g : B -> C) (h : nat -> A -> C)
    (f : nat -> A -> option B) (l : list A) :
  (forall i x y, f i x = Some y -> g y = h i x) ->
  (g <$> omap id (imap f l)) `sublist_of` imap h l.
Proof.
  revert f h. induction l as [|x l IH]; intros f h Hf; [constructor|].
  rewrite !imap_cons. simpl. destruct (f 0 x) as [y|] eqn:E; simpl.
  - rewrite (Hf 0 x y E). apply sublist_skip, IH. intros i x' y'. apply Hf.
  - apply sublist_cons, IH. intros i x' y'. apply Hf.
Qed.

Lemma stopMarker_badges route idx s m :
  stopMarker route idx s = Some m ->
  startBadge (markerPopup m) = (idx =? 0)%nat /\
  endBadge (markerPopup m)
  = (Z.of_nat idx =?
       JS.orZero (from_option (fun l => Z.of_nat (length l)) 0 (stops route)) - 1)%Z /\
  hubBadge (markerPopup m) = hubFlag s /\
  markerKey m = stop_id s /\
  usable (stopLat s) (stopLon s).
Proof.
  unfold stopMarker.
  destruct (markerStopInvalid (stopLat s) (stopLon s)) eqn:E; [discriminate|].
  apply markerStopInvalid_usable in E. intros [= <-]. simpl. auto.
Qed.

(** Among the markers drawn for a route, at most one carries the start
    badge and at most one the end badge; a start marker is drawn exactly
    when the stop at index 0 has a usable position. *)
Theorem start_and_end_markers (selected : option ProcessedRoute)
    (route : ProcessedRoute) :
  length (List.filter (fun m => startBadge (markerPopup m))
            (drawn (stopMarkers selected route))) <= 1 /\
  length (List.filter (fun m => endBadge (markerPopup m))
            (drawn (stopMarkers selected route))) <= 1 /\
  ((exists m, m ∈ drawn (stopMarkers selected route) /\
              startBadge (markerPopup m) = true)
   <-> selected <> None /\
       exists ss s, stops route = Some ss /\ ss !! 0 = Some s /\
                    usable (stopLat s) (stopLon s)).
Proof.
  unfold stopMarkers. destruct selected as [sel|].
  2:{ simpl. split; [lia|]. split; [lia|]. split.
      - intros (m & H & _). inversion H.
      - intros [H _]. congruence. }
  destruct (stops route) as [ss|] eqn:Hss.
  2:{ simpl. split; [lia|]. split; [lia|]. split.
      - intros (m & H & _). inversion H.
      - intros [_ (ss & s & H & _)]. discriminate. }
  simpl fmap. split; [|split].
  - apply (filter_drawn_imap_one _ _ _ 0). intros i s m E P.
    apply stopMarker_badges in E as (E & _). rewrite E in P.
    apply Nat.eqb_eq in P. exact P.
  - apply (filter_drawn_imap_one _ _ _ (length ss - 1)). intros i s m E P.
    apply stopMarker_badges in E as (_ & E & _). rewrite E, Hss in P. simpl in P.
    apply Z.eqb_eq in P. unfold JS.orZero in P.
    destruct (Z.of_nat (length ss) =? 0)%Z eqn:Z0; lia.
  - split.
    + intros (m & Hm & P). split; [discriminate|].
      apply elem_of_drawn_imap in Hm as (i & s & Hi & E).
      pose proof (stopMarker_badges _ _ _ _ E) as (Eb & _ & _ & _ & Hu).
      rewrite Eb in P. apply Nat.eqb_eq in P. subst i.
      exists ss, s. auto.
    + intros (_ & ss' & s & [= <-] & Hi & Hu).
      destruct (stopMarker route 0 s) as [m|] eqn:E.
      * exists m. split; [apply elem_of_drawn_imap; eauto|].
        apply stopMarker_badges in E as (-> & _). reflexivity.
      * exfalso. unfold stopMarker in E.
        apply markerStopInvalid_usable in Hu. rewrite Hu in E. discriminate.
Qed.

(** The keys React is given are distinct: those of the polylines of a
    route always, those of its markers when the stops have distinct ids,
    and those of the layers when the supplied routes have distinct ids. *)
Theorem keys_are_distinct :
  (forall selected route, NoDup (key <$> drawn (routeLines selected route))) /\
  (forall selected route ss,
      stops route = Some ss -> NoDup (stop_id <$> ss) ->
      NoDup (markerKey <$> drawn (stopMarkers selected route))) /\
  (forall rs,
      NoDup (route_id <$> rs) ->
      NoDup (layerKey <$> (routeLayer None <$> displayRoutes None rs))).
Proof.
  split; [|split].
  - intros selected route. unfold routeLines.
    destruct (routes route) as [vs|]; simpl; [|constructor].
    eapply sublist_NoDup.
    2:{ apply (fmap_drawn_imap_sublist key (fun i _ => (route_id route, i))).
        intros i v line E. apply routeLine_Some in E as (_ & _ & _ & _ & E & _).
        exact E. }
    rewrite imap_seq_0. apply NoDup_fmap_2; [|apply NoDup_seq].
    intros i j [= ->]. reflexivity.
  - intros selected route ss Hss Hnd. unfold stopMarkers.
    destruct selected; [|constructor]. rewrite Hss. simpl.
    eapply sublist_NoDup; [exact Hnd|].
    rewrite <- (imap_const stop_id ss).
    apply fmap_drawn_imap_sublist. intros i s m E.
    apply stopMarker_badges in E as (_ & _ & _ & E & _). exact E.
  - intros rs Hnd. rewrite <- list_fmap_compose.
    eapply sublist_NoDup; [exact Hnd|].
    apply (fmap_sublist route_id). unfold displayRoutes.
    etransitivity; [apply sublist_take|apply filter_sublist].
Qed.

Lemma keys_are_distinct_witness :
  NoDup (markerKey <$> drawn (stopMarkers (Some routeR1) routeR1)).
Proof.
  refine (proj1 (proj2 keys_are_distinct) (Some routeR1) routeR1
            [stopA; stopB; stopC] _ _).
  - reflexivity.
  - apply (bool_decide_unpack _). vm_compute. exact I.
Defined.

(** The colour never gets slower as the speed grows: if [speed1 <= speed2]
    and [speed1] is green then [speed2] is green, and if [speed2] is red
    then [speed1] is red. *)
Theorem color_is_monotone (speed1 speed2 : JS.number) :
  JS.le speed1 speed2 = true ->
  (getColorBySpeed speed1 = "#22c55e" -> getColorBySpeed speed2 = "#22c55e") /\
  (getColorBySpeed speed2 = "#ef4444" -> getColorBySpeed speed1 = "#ef4444").
Proof.
  unfold JS.le, getColorBySpeed, JS.ge. intros Hle. split.
  - destruct (SFleb (JS.lit "37") speed1) eqn:E1.
    + rewrite (SFleb_trans _ _ _ E1 Hle). reflexivity.
    + destruct (SFleb (JS.lit "36.5") speed1); discriminate.
  - destruct (SFleb (JS.lit "37") speed2) eqn:E2; [discriminate|].
    destruct (SFleb (JS.lit "36.5") speed2) eqn:E3; [discriminate|]. intros _.
    destruct (SFleb (JS.lit "37") speed1) eqn:E1;
      [rewrite (SFleb_trans _ _ _ E1 Hle) in E2; discriminate|].
    destruct (SFleb (JS.lit "36.5") speed1) eqn:E4;
      [rewrite (SFleb_trans _ _ _ E4 Hle) in E3; discriminate|].
    reflexivity.
Qed.

Lemma color_is_monotone_witness :
  getColorBySpeed (JS.lit "30") = "#ef4444".
Proof.
  refine (proj2 (color_is_monotone (JS.lit "30") (JS.lit "36.2") _) _);
    vm_compute; reflexivity.
Defined.

(** A marker is animated exactly when it is larger than a regular one, and
    blue exactly when it is a regular one; it is red and of size 24
    exactly for a hub. *)
Theorem marker_style_is_consistent (route : ProcessedRoute) (idx : nat)
    (s : Stop) (m : Marker) :
  stopMarker route idx s = Some m ->
  (pulse m = true <-> (16 < markerSize m)%Z) /\
  (pulse m = false <-> bgColor m = "#3b82f6") /\
  (pulse m = false <-> markerSize m = 16%Z) /\
  (hubBadge (markerPopup m) = true <-> bgColor m = "#ef4444") /\
  (hubBadge (markerPopup m) = true <-> markerSize m = 24%Z) /\
  (pulse m = hubBadge (markerPopup m) || startBadge (markerPopup m)
             || endBadge (markerPopup m)).
Proof.
  unfold stopMarker.
  destruct (markerStopInvalid (stopLat s) (stopLon s)); [discriminate|].
  intros [= <-]. simpl.
  destruct (hubFlag s), (idx =? 0)%nat, (Z.eqb _ _); simpl;
    repeat split; intros; try discriminate; try reflexivity; try lia.
Qed.

Lemma marker_style_is_consistent_witness :
  exists m, stopMarker routeR1 1 stopB = Some m /\
            (pulse m = true <-> (16 < markerSize m)%Z).
Proof.
  eexists. split; [vm_compute; reflexivity|].
  refine (proj1 (marker_style_is_consistent routeR1 1 stopB _ _)).
  vm_compute. reflexivity.
Defined.

(** *** Stability of the selection *)

Lemma filter_filter_same {A} (f : A -> bool) (l : list A) :
  List.filter f (List.filter f l) = List.filter f l.
Proof.
  induction l as [|x l IH]; [reflexivity|]. simpl.
  destruct (f x) eqn:E; simpl; rewrite ?E, IH; reflexivity.
Qed.

Lemma filter_take_filter {A} (f : A -> bool) (n : nat) (l : list A) :
  List.filter f (take n (List.filter f l)) = take n (List.filter f l).
Proof.
  apply filter_all, Forall_forall. intros x Hx.
  apply subseteq_take, elem_of_filter_bool in Hx. tauto.
Qed.

(** Selecting again among the routes shown changes nothing, and routes
    appended to the supplied list never displace the routes shown. *)
Theorem displayRoutes_is_stable (rs rs' : list ProcessedRoute) :
  displayRoutes None (displayRoutes None rs) = displayRoutes None rs /\
  displayRoutes None rs `prefix_of` displayRoutes None (rs ++ rs') /\
  (30 <= length (displayRoutes None rs) ->
   displayRoutes None (rs ++ rs') = displayRoutes None rs).
Proof.
  unfold displayRoutes. split; [|split].
  - rewrite filter_take_filter, take_idemp. reflexivity.
  - rewrite List.filter_app, take_app. eexists. reflexivity.
  - intros H. rewrite List.filter_app, take_app.
    rewrite length_take in H.
    replace (30 - length (List.filter hasValidFlow rs)) with 0 by lia.
    rewrite take_0, app_nil_r. reflexivity.
Qed.

Lemma displayRoutes_is_stable_witness :
  displayRoutes None (replicate 30 routeR1 ++ [routeR1])
  = displayRoutes None (replicate 30 routeR1).
Proof.
  refine (proj2 (proj2 (displayRoutes_is_stable (replicate 30 routeR1) [routeR1])) _).
  vm_compute. lia.
Defined.

(** Selecting a route without any valid point draws nothing and sends no
    fit command, whatever the supplied list. *)
Theorem selected_route_without_points (r : ProcessedRoute)
    (rs : list ProcessedRoute) :
  routePoints r = [] ->
  drawn (routeLines (Some r) r) = [] /\
  drawn (stopMarkers (Some r) r) = [] /\
  MapUpdater_effect (displayRoutes (Some r) rs) = Some [].
Proof.
  intros H. unfold routePoints in H. apply app_eq_nil in H as [Hs Hv].
  split; [|split].
  - destruct (hasValidFlow r) eqn:E.
    + exfalso. apply (hasValidFlow_draws (Some r)) in E.
      destruct (drawn (routeLines (Some r) r)) as [|line ls] eqn:D; [congruence|].
      pose proof (line_positions (Some r) r) as P. rewrite D, Hv in P.
      simpl in P. apply app_eq_nil in P as [P _].
      assert (Hl : line ∈ drawn (routeLines (Some r) r)) by (rewrite D; left).
      unfold routeLines in Hl. destruct (routes r) as [vs|]; [|inversion Hl].
      apply elem_of_drawn_imap in Hl as (i & v & _ & Hl).
      apply routeLine_Some in Hl as (_ & _ & _ & N & _). congruence.
    + destruct (drawn (routeLines (Some r) r)) eqn:D; [reflexivity|].
      assert (T : hasValidFlow r = true)
        by (apply (hasValidFlow_draws (Some r)); rewrite D; discriminate).
      congruence.
  - pose proof (marker_positions r r) as P. rewrite Hs in P.
    apply fmap_nil_inv in P. exact P.
  - simpl.
    destruct (MapUpdater_effect_cases [r]) as [[_ E]|(sw & ne & _ & _ & _ & N)];
      [exact E|].
    exfalso. apply N. rewrite collectBounds_concat. simpl. rewrite app_nil_r.
    unfold routePoints. rewrite Hs, Hv. reflexivity.
Qed.

Lemma selected_route_without_points_witness :
  drawn (routeLines (Some routeNoPoints) routeNoPoints) = [] /\
  drawn (stopMarkers (Some routeNoPoints) routeNoPoints) = [] /\
  MapUpdater_effect (displayRoutes (Some routeNoPoints) [routeR1]) = Some [].
Proof.
  apply selected_route_without_points. vm_compute. reflexivity.
Defined.

(** Markers are never drawn without the legend, and never together with
    the placeholder. *)
Theorem markers_come_with_legend (st : State) (p : Props)
    (layers : list RouteLayer) (legend : bool) (layer : RouteLayer) :
  (RouteMap st p).1.2 = MapView layers legend ->
  layer ∈ layers -> drawn (markers layer) <> [] ->
  legend = true /\ mounted st = true /\
  exists r, selectedRoute p = Some r /\ layers = [routeLayer (Some r) r].
Proof.
  unfold RouteMap. destruct (mounted st); simpl negb; cbv iota; [|discriminate].
  unfold allocDisplayRoutes. destruct (selectedRoute p) as [r|] eqn:Hs.
  - match goal with
    | |- context [MapUpdater ?a ?b ?c] => destruct (MapUpdater a b c)
    end. simpl. intros [= <- <-] _ _. split; [reflexivity|]. split; [reflexivity|].
    exists r. auto.
  - match goal with
    | |- context [MapUpdater ?a ?b ?c] => destruct (MapUpdater a b c)
    end. simpl. intros [= <- <-] Hl Hd. exfalso.
    apply list_elem_of_fmap in Hl as (route & -> & _). apply Hd. reflexivity.
Qed.

Lemma markers_come_with_legend_witness :
  true = true /\ mounted stateMounted = true /\
  exists r, selectedRoute propsSelectedR1 = Some r /\
            [routeLayer (Some routeR1) routeR1] = [routeLayer (Some r) r].
Proof.
  refine (markers_come_with_legend stateMounted propsSelectedR1
            [routeLayer (Some routeR1) routeR1] true
            (routeLayer (Some routeR1) routeR1) _ _ _).
  - reflexivity.
  - left.
  - vm_compute. discriminate.
Defined.




(** A route without valid geometry neither shows nor takes one of the 30
    places: removing it from the supplied list changes nothing. *)
Theorem ineligible_routes_do_not_count (r : ProcessedRoute)
    (before after : list ProcessedRoute) :
  hasValidFlow r = false ->
  displayRoutes None (before ++ r :: after) = displayRoutes None (before ++ after).
Proof.
  intros H. unfold displayRoutes. rewrite !List.filter_app. simpl. rewrite H.
  reflexivity.
Qed.

Lemma ineligible_routes_do_not_count_witness :
  displayRoutes None ([routeR1] ++ routeNoGeometry :: [routeR1])
  = displayRoutes None ([routeR1] ++ [routeR1]).
Proof.
  apply ineligible_routes_do_not_count. vm_compute. reflexivity.
Defined.

(** Supplying more points never shrinks the fitted region. *)
Theorem fitted_region_grows (rs rs' : list ProcessedRoute)
    (sw ne sw' ne' : Leaflet.LatLng) (pad pad' : Z * Z) :
  (forall p, ValidPoint rs p -> ValidPoint rs' p) ->
  MapUpdater_effect rs =
    Some [FitBounds {| Leaflet.southWest := Some sw;
                       Leaflet.northEast := Some ne |} pad] ->
  MapUpdater_effect rs' =
    Some [FitBounds {| Leaflet.southWest := Some sw';
                       Leaflet.northEast := Some ne' |} pad'] ->
  JS.le (Leaflet.lat sw') (Leaflet.lat sw) = true /\
  JS.le (Leaflet.lng sw') (Leaflet.lng sw) = true /\
  JS.le (Leaflet.lat ne) (Leaflet.lat ne') = true /\
  JS.le (Leaflet.lng ne) (Leaflet.lng ne') = true.
Proof.
  intros Hsub F F'.
  destruct (MapUpdater_effect_cases rs) as [[_ E]|(a & b & E & _ & A & _)];
    rewrite E in F; [discriminate|]. injection F as -> -> _.
  destruct (MapUpdater_effect_cases rs') as [[_ E']|(a' & b' & E' & W' & _ & _)];
    rewrite E' in F'; [discriminate|]. injection F' as -> -> _.
  destruct A as ((p1 & H1 & ->) & (p2 & H2 & ->) & (p3 & H3 & ->) & (p4 & H4 & ->)).
  apply elem_of_collectBounds in H1, H2, H3, H4.
  destruct (W' p1 (Hsub p1 H1)) as (G1 & _).
  destruct (W' p2 (Hsub p2 H2)) as (_ & _ & G2 & _).
  destruct (W' p3 (Hsub p3 H3)) as (_ & G3 & _).
  destruct (W' p4 (Hsub p4 H4)) as (_ & _ & _ & G4). auto.
Qed.

Lemma fitted_region_grows_witness :
  exists sw ne sw' ne',
    MapUpdater_effect [routeNoGeometry] =
      Some [FitBounds {| Leaflet.southWest := Some sw;
                         Leaflet.northEast := Some ne |} (50, 50)%Z] /\
    MapUpdater_effect [routeNoGeometry; routeR1] =
      Some [FitBounds {| Leaflet.southWest := Some sw';
                         Leaflet.northEast := Some ne' |} (50, 50)%Z] /\
    JS.le (Leaflet.lat ne) (Leaflet.lat ne') = true.
Proof.
  do 4 eexists.
  split; [vm_compute; reflexivity|]. split; [vm_compute; reflexivity|].
  refine (proj1 (proj2 (proj2 (fitted_region_grows [routeNoGeometry]
            [routeNoGeometry; routeR1] _ _ _ _ (50, 50)%Z (50, 50)%Z _ _ _)))).
  - intros p (r & Hr & H). exists r. split; [|exact H].
    apply list_elem_of_singleton in Hr as ->. left.
  - vm_compute. reflexivity.
  - vm_compute. reflexivity.
Defined.
